(** * Near-Earth objects: models, database and loaders

    A shallow embedding of [models.py], [database.py] and [extract.py]:
    the two entity classes with their keyword-argument constructors,
    their display strings and their export, the [NEODatabase] constructor
    with its two indices and its linking loop, the two point lookups, the
    [query] generator, and the two loaders from the parsed rows on.

    Python objects have identity and are mutated in place by the linking
    loop, so entities live in a store and are named by references; the
    collections handed to the database are lists of references. *)

From Stdlib Require Import ZArith String List.
From Stdlib Require Import Floats.SpecFloat.
From stdpp Require Import gmap strings list fin_maps functions.

Local Open Scope Z_scope.
Local Open Scope string_scope.
Local Open Scope nat_scope.
Local Open Scope list_scope.

(** ** Python values *)

(** The values the keyword arguments of the two constructors range over.
    A float is an IEEE-754 datum ([spec_float]); no float arithmetic is
    performed by the code, only tests ([not x], [isinstance], [==]). A
    timestamp is kept as a number of minutes. *)
Inductive pyval :=
  | PyNone
  | PyBool (b : bool)
  | PyInt (z : Z)
  | PyFloat (f : spec_float)
  | PyStr (s : string)
  | PyDatetime (t : Z).

(** [float("nan")] *)
Definition nan : pyval := PyFloat S754_nan.

(** [bool(v)]: [None], [False], zero of either sign and the empty string
    are falsy; a NaN is truthy. *)
Definition truthy (v : pyval) : bool :=
  match v with
  | PyNone => false
  | PyBool b => b
  | PyInt z => negb (z =? 0)%Z
  | PyFloat (S754_zero _) => false
  | PyFloat _ => true
  | PyStr s => negb (String.eqb s "")
  | PyDatetime _ => true
  end.

(** [isinstance(v, float)]; [bool] and [int] are not floats. *)
Definition isinstance_float (v : pyval) : bool :=
  match v with PyFloat _ => true | _ => false end.

(** [isinstance(v, datetime.datetime)] *)
Definition isinstance_datetime (v : pyval) : bool :=
  match v with PyDatetime _ => true | _ => false end.

(** [v == w] where both are floats: IEEE equality, under which a NaN is
    equal to nothing and the two zeros are equal. On other pairs the
    comparison is not used here. *)
Definition float_eq (v w : pyval) : bool :=
  match v, w with
  | PyFloat f, PyFloat g => SFeqb f g
  | _, _ => false
  end.

(** [math.isnan] *)
Definition isnan (v : pyval) : bool :=
  match v with PyFloat S754_nan => true | _ => false end.

(** Truthiness of an attribute that holds a string or [None]. *)
Definition truthy_str (o : option string) : bool :=
  match o with
  | Some s => negb (String.eqb s "")
  | None => false
  end.

(** [info.get(key)] and [info.get(key, default)] on a keyword that may be
    missing. *)
Definition kw_get (o : option pyval) : pyval := default PyNone o.
Definition kw_get_default (o : option pyval) (d : pyval) : pyval := default d o.

(** ** Exceptions *)

Inductive exn :=
  | AssertionError (msg : string)
  | ValueError (msg : string)
  | TypeError (msg : string).

Inductive result (A : Type) :=
  | Ok (a : A)
  | Raise (e : exn).
Arguments Ok {A} a.
Arguments Raise {A} e.

Definition rbind {A B} (r : result A) (k : A -> result B) : result B :=
  match r with
  | Ok a => k a
  | Raise e => Raise e
  end.

Notation "x <-! r ; k" := (rbind r (fun x => k))
  (at level 100, r at next level, right associativity).

(** [assert cond, msg] *)
Definition py_assert (cond : bool) (msg : string) : result unit :=
  if cond then Ok tt else Raise (AssertionError msg).

(** ** Entities ([models.py]) *)

Definition neo_ref := nat.
Definition ca_ref := nat.

(** Attributes of a [NearEarthObject] instance. The designation and the
    name are strings or [None]; [diameter] and [hazardous] hold whatever
    the caller passed. *)
Record NearEarthObject := {
  designation : option string;
  name : option string;
  diameter : pyval;
  hazardous : pyval;
  approaches : list ca_ref
}.

(** The keyword arguments [**info] of [NearEarthObject.__init__]; [None]
    in the last two stands for a keyword that is not supplied. *)
Record neo_info := {
  neo_kw_designation : option string;
  neo_kw_name : option string;
  neo_kw_diameter : option pyval;
  neo_kw_hazardous : option pyval
}.

Definition NearEarthObject_init (info : neo_info) : NearEarthObject :=
  let d := kw_get (neo_kw_diameter info) in
  {| designation := neo_kw_designation info;
     name := neo_kw_name info;
     diameter := if negb (truthy d) then nan else d;
     hazardous := kw_get (neo_kw_hazardous info);
     approaches := [] |}.

(** Attributes of a [CloseApproach] instance. *)
Record CloseApproach := {
  _designation : option string;
  time : pyval;
  distance : pyval;
  velocity : pyval;
  neo : option neo_ref
}.

Record ca_info := {
  ca_kw_designation : option string;
  ca_kw_time : option pyval;
  ca_kw_distance : option pyval;
  ca_kw_velocity : option pyval;
  ca_kw_neo : option neo_ref
}.

Section CloseApproachInit.

(** [helpers.cd_to_datetime] is imported by [models.py]; it parses a
    calendar date and may raise. *)
Variable cd_to_datetime : pyval -> result pyval.

Definition CloseApproach_init (info : ca_info) : result CloseApproach :=
  let t := kw_get (ca_kw_time info) in
  t' <-! (if truthy t
          then (t1 <-! cd_to_datetime t;
                _ <-! py_assert (isinstance_datetime t1)
                                "Date must be a datetime object";
                Ok t1)
          else Ok t);
  let dist := kw_get_default (ca_kw_distance info) nan in
  let vel := kw_get_default (ca_kw_velocity info) nan in
  _ <-! py_assert (isinstance_float dist) "Distance must be a float object";
  _ <-! py_assert (isinstance_float vel) "Velocity must be a float object";
  Ok {| _designation := ca_kw_designation info;
        time := t';
        distance := dist;
        velocity := vel;
        neo := ca_kw_neo info |}.

End CloseApproachInit.

(** ** The object store *)

(** Every reference denotes an instance. The linking loop of the database
    constructor updates instances in place, which is an update of the
    store at that reference. *)
Record heap := {
  neo_at : neo_ref -> NearEarthObject;
  ca_at : ca_ref -> CloseApproach
}.

(** [approach.neo = n] *)
Definition set_neo (n : neo_ref) (c : CloseApproach) : CloseApproach :=
  {| _designation := _designation c;
     time := time c;
     distance := distance c;
     velocity := velocity c;
     neo := Some n |}.

(** [neo.approaches.append(a)] *)
Definition append_approach (a : ca_ref) (o : NearEarthObject) : NearEarthObject :=
  {| designation := designation o;
     name := name o;
     diameter := diameter o;
     hazardous := hazardous o;
     approaches := approaches o ++ [a] |}.

(** ** The database ([database.py]) *)

Record NEODatabase := {
  _neos : list neo_ref;
  _approaches : list ca_ref;
  _neo_designations : gmap (option string) neo_ref;
  _neo_names : gmap (option string) neo_ref
}.

(** [{neo.designation: neo for neo in neos}]: later entries overwrite
    earlier ones with the same key. *)
Definition designation_index (h : heap) (neos : list neo_ref)
    : gmap (option string) neo_ref :=
  foldl (fun d n => <[designation (neo_at h n) := n]> d) ∅ neos.

(** [{neo.name: neo for neo in neos if neo.name}] *)
Definition name_index (h : heap) (neos : list neo_ref)
    : gmap (option string) neo_ref :=
  foldl (fun d n => if truthy_str (name (neo_at h n))
                    then <[name (neo_at h n) := n]> d
                    else d) ∅ neos.

(** The body of the linking loop for one approach. [if neo:] tests the
    result of [dict.get]; a [NearEarthObject] defines neither [__bool__]
    nor [__len__], so the test fails exactly on [None]. *)
Definition link_approach (index : gmap (option string) neo_ref)
    (h : heap) (a : ca_ref) : heap :=
  match index !! _designation (ca_at h a) with
  | Some n =>
      let h1 := {| neo_at := neo_at h;
                   ca_at := <[a := set_neo n (ca_at h a)]> (ca_at h) |} in
      {| neo_at := <[n := append_approach a (neo_at h1 n)]> (neo_at h1);
         ca_at := ca_at h1 |}
  | None => h
  end.

(** [NEODatabase.__init__]: returns the store after linking and the new
    database object. *)
Definition NEODatabase_init (h : heap) (neos : list neo_ref)
    (approaches_in : list ca_ref) : heap * NEODatabase :=
  let by_designation := designation_index h neos in
  let by_name := name_index h neos in
  (foldl (link_approach by_designation) h approaches_in,
   {| _neos := neos;
      _approaches := approaches_in;
      _neo_designations := by_designation;
      _neo_names := by_name |}).

Definition get_neo_by_designation (db : NEODatabase)
    (d : option string) : option neo_ref :=
  _neo_designations db !! d.

Definition get_neo_by_name (db : NEODatabase)
    (n : option string) : option neo_ref :=
  _neo_names db !! n.

(** *** Queries *)

(** A filter is a predicate on one approach; it may read the approach and
    the NEO it is linked to, both of which live in the store. *)
Definition Filter := heap -> ca_ref -> bool.

(** [query] is a generator function. A call returns a generator object,
    the suspended frame: the argument [filters], the list that the [for]
    loop iterates and the position of the loop's iterator. *)
Record generator := {
  gen_filters : list Filter;
  gen_seq : list ca_ref;
  gen_pos : nat
}.

Definition query (db : NEODatabase) (filters : list Filter) : generator :=
  {| gen_filters := filters;
     gen_seq := _approaches db;
     gen_pos := 0 |}.

(** [next(g)]: resume the frame up to the next [yield]; [None] is
    [StopIteration]. The body yields the approach under the iterator and
    reads [filters] nowhere. *)
Definition next (g : generator) : option ca_ref * generator :=
  match gen_seq g !! gen_pos g with
  | Some a => (Some a, {| gen_filters := gen_filters g;
                          gen_seq := gen_seq g;
                          gen_pos := S (gen_pos g) |})
  | None => (None, g)
  end.

(** Drain a generator with at most [fuel] calls of [next]. *)
Fixpoint collect (fuel : nat) (g : generator) : list ca_ref * generator :=
  match fuel with
  | O => ([], g)
  | S k =>
      match next g with
      | (Some a, g') => let '(l, g'') := collect k g' in (a :: l, g'')
      | (None, g') => ([], g')
      end
  end.

(** [list(g)]: one call of [next] per remaining element and one more for
    [StopIteration]. *)
Definition to_list (g : generator) : list ca_ref * generator :=
  collect (S (List.length (gen_seq g) - gen_pos g)) g.

(** The behaviour the docstring of [query] describes: the approaches, in
    storage order, on which every filter holds. *)
Definition query_matching (h : heap) (db : NEODatabase)
    (filters : list Filter) : list ca_ref :=
  List.filter (fun a => forallb (fun f => f h a) filters) (_approaches db).

(** *** Generator objects *)

(** Generator objects are themselves mutable: [next] advances the object
    it is called on. The live generators are kept in a table, a
    generator's identity being its position. *)
Definition gen_id := nat.

Definition call_query (gs : list generator) (db : NEODatabase)
    (filters : list Filter) : gen_id * list generator :=
  (List.length gs, gs ++ [query db filters]).

Definition call_next (gs : list generator) (i : gen_id)
    : option (option ca_ref) * list generator :=
  match gs !! i with
  | Some g => let '(r, g') := next g in (Some r, <[i := g']> gs)
  | None => (None, gs)
  end.

Definition call_to_list (gs : list generator) (i : gen_id)
    : option (list ca_ref) * list generator :=
  match gs !! i with
  | Some g => let '(l, g') := to_list g in (Some l, <[i := g']> gs)
  | None => (None, gs)
  end.

(** [k] calls of [next] on generator [i], results discarded. *)
Fixpoint advance (k : nat) (gs : list generator) (i : gen_id) : list generator :=
  match k with
  | O => gs
  | S k' => advance k' (snd (call_next gs i)) i
  end.

(** ** A worked data set *)

(** One NEO, Eros, at NEO reference 0, and two approaches at approach
    references 0 and 1, the second of an object that is not in the NEO
    collection. NEO references other than 0 hold a NEO without a name. *)
Definition f_16_84 : pyval := PyFloat (S754_finite false 4740038607807447 (-48)).
Definition f_0_15 : pyval := PyFloat (S754_finite false 5404319552844595 (-55)).
Definition f_5_2 : pyval := PyFloat (S754_finite false 5854679515581645 (-50)).
Definition f_0_02 : pyval := PyFloat (S754_finite false 5764607523034235 (-58)).
Definition f_30_0 : pyval := PyFloat (S754_finite false 8444249301319680 (-48)).

Definition eros : NearEarthObject :=
  NearEarthObject_init
    {| neo_kw_designation := Some "433";
       neo_kw_name := Some "Eros";
       neo_kw_diameter := Some f_16_84;
       neo_kw_hazardous := Some (PyBool false) |}.

Definition unnamed_neo : NearEarthObject :=
  NearEarthObject_init
    {| neo_kw_designation := Some "2020 AB";
       neo_kw_name := None;
       neo_kw_diameter := None;
       neo_kw_hazardous := Some (PyBool false) |}.

Definition approach_433 : CloseApproach :=
  {| _designation := Some "433"; time := PyDatetime 26297280;
     distance := f_0_15; velocity := f_5_2; neo := None |}.

Definition approach_999 : CloseApproach :=
  {| _designation := Some "999"; time := PyDatetime 26298720;
     distance := f_0_02; velocity := f_30_0; neo := None |}.

Definition sample_heap : heap :=
  {| neo_at := fun r => match r with O => eros | _ => unnamed_neo end;
     ca_at := fun r => match r with O => approach_433 | _ => approach_999 end |}.

Definition sample_db : heap * NEODatabase :=
  NEODatabase_init sample_heap [0] [0; 1].

Definition never : Filter := fun _ _ => false.

(** A NEO whose name is the empty string rather than [None]. *)
Definition blank_name_neo : NearEarthObject :=
  NearEarthObject_init
    {| neo_kw_designation := Some "1036";
       neo_kw_name := Some "";
       neo_kw_diameter := None;
       neo_kw_hazardous := Some (PyBool false) |}.

Definition blank_name_heap : heap :=
  {| neo_at := fun _ => blank_name_neo;
     ca_at := fun _ => approach_999 |}.

(** A date parser that accepts every string. *)
Definition parse_any (v : pyval) : result pyval :=
  match v with
  | PyStr _ => Ok (PyDatetime 26297280)
  | _ => Raise (TypeError "strptime() argument 1 must be str")
  end.

(** ** Display and export ([models.py], continued) *)

(** The exceptions the remaining code can raise besides those of the
    constructors; the messages of the additional ones are not kept. *)
Inductive pyexn :=
  | Builtin (e : exn)
  | AttributeError
  | KeyError (key : string)
  | IndexError
  | OverflowError.

Inductive outcome (A : Type) :=
  | Done (a : A)
  | Throw (e : pyexn).
Arguments Done {A} a.
Arguments Throw {A} e.

Definition obind {A B} (r : outcome A) (k : A -> outcome B) : outcome B :=
  match r with
  | Done a => k a
  | Throw e => Throw e
  end.

Notation "x <-? r ; k" := (obind r (fun x => k))
  (at level 100, r at next level, right associativity).

Definition lift {A} (r : result A) : outcome A :=
  match r with
  | Ok a => Done a
  | Raise e => Throw (Builtin e)
  end.

(** [str(x)] of an attribute that holds a string or [None], as an
    f-string interpolates it. *)
Definition str_of (o : option string) : string :=
  match o with
  | Some s => s
  | None => "None"
  end.

(** The value of an attribute that holds a string or [None]. *)
Definition py_of_str (o : option string) : pyval :=
  match o with
  | Some s => PyStr s
  | None => PyNone
  end.

(** [NearEarthObject.fullname] *)
Definition fullname (o : NearEarthObject) : string :=
  if truthy_str (name o)
  then (str_of (designation o) ++ " (" ++ str_of (name o) ++ ")")%string
  else str_of (designation o).

(** [math.isnan(v)]: an [int] or [bool] is converted to a float first,
    which overflows from [2**1024 - 2**970] on in magnitude; other values
    are no real numbers. *)
Definition math_isnan (v : pyval) : outcome bool :=
  match v with
  | PyFloat S754_nan => Done true
  | PyFloat _ => Done false
  | PyBool _ => Done false
  | PyInt z =>
      if (Z.abs z <? 2 ^ 1024 - 2 ^ 970)%Z then Done false
      else Throw OverflowError
  | PyNone => Throw (Builtin (TypeError "must be real number, not NoneType"))
  | PyStr _ => Throw (Builtin (TypeError "must be real number, not str"))
  | PyDatetime _ =>
      Throw (Builtin (TypeError "must be real number, not datetime.datetime"))
  end.

(** [NearEarthObject.serialize]: the dictionary literal, in key order. *)
Definition NearEarthObject_serialize (o : NearEarthObject)
    : list (string * pyval) :=
  [("designation", py_of_str (designation o));
   ("name", py_of_str (name o));
   ("diameter_km", diameter o);
   ("potentially_hazardous", hazardous o)].

Section Display.

(** [format(v, ".Nf")], the conversion an f-string field [{v:.Nf}]
    applies, and [helpers.datetime_to_str]. *)
Variable format_f : nat -> pyval -> outcome string.
Variable datetime_to_str : pyval -> outcome string.

(** [NearEarthObject.__str__] *)
Definition NearEarthObject_str (o : NearEarthObject) : outcome string :=
  let hazardous_status := if truthy (hazardous o) then "is" else "is not" in
  b <-? math_isnan (diameter o);
  if negb b
  then (d <-? format_f 3 (diameter o);
        Done ("NEO " ++ fullname o ++ " has a diameter of " ++ d ++ " km "
              ++ "and " ++ hazardous_status ++ " potentially hazardous.")%string)
  else Done ("NEO " ++ fullname o ++ " " ++ hazardous_status
             ++ " potentially hazardous.")%string.

(** [CloseApproach.time_str] *)
Definition time_str (c : CloseApproach) : outcome string :=
  if truthy (time c) then datetime_to_str (time c)
  else Done "an unknown time".

(** [CloseApproach.__str__]. The fields of the f-string are evaluated
    from left to right; [self.neo.fullname] is an attribute access on
    [None] while the approach is not linked. The literal continues on a
    second source line behind a backslash, whose indentation is part of
    the text. *)
Definition CloseApproach_str (h : heap) (c : CloseApproach) : outcome string :=
  t <-? time_str c;
  match neo c with
  | None => Throw AttributeError
  | Some n =>
      d <-? format_f 2 (distance c);
      v <-? format_f 2 (velocity c);
      Done ("At " ++ t ++ ", '" ++ fullname (neo_at h n)
            ++ "' approaches Earth at a distance of " ++ d
            ++ " au and a velocity of                 " ++ v ++ " km/s.")%string
  end.

(** [CloseApproach.serialize]: the time is converted without the guard
    that [time_str] has. *)
Definition CloseApproach_serialize (c : CloseApproach)
    : outcome (list (string * pyval)) :=
  t <-? datetime_to_str (time c);
  Done [("datetime_utc", PyStr t);
        ("distance_au", distance c);
        ("velocity_km_s", velocity c)].

End Display.

(** ** Loading ([extract.py]) *)

(** The loaders are modelled from the rows on: [csv.DictReader] hands
    [load_neos] one dictionary per line, whose values are strings, or
    [None] for a line with too few fields; [json.load] hands
    [load_approaches] the lists under ["data"], whose entries are taken to
    be strings or null. What the [except] clauses print is not kept. *)
Section Extract.

(** [float(s)] of a string: the float, or the message of the
    [ValueError]. *)
Variable float_of_str : string -> spec_float + string.
Variable cd_to_datetime : pyval -> result pyval.

(** [float(x)] of a string or [None]. *)
Definition py_float (x : option string) : result pyval :=
  match x with
  | Some s =>
      match float_of_str s with
      | inl f => Ok (PyFloat f)
      | inr msg => Raise (ValueError msg)
      end
  | None =>
      Raise (TypeError
        "float() argument must be a string or a real number, not 'NoneType'")
  end.

(** [row[key]] on a dictionary *)
Definition getitem (row : gmap string (option string)) (key : string)
    : outcome (option string) :=
  match row !! key with
  | Some v => Done v
  | None => Throw (KeyError key)
  end.

(** The body of the [try] in [load_neos]. *)
Definition neo_of_row (row : gmap string (option string))
    : outcome NearEarthObject :=
  pdes <-? getitem row "pdes";
  nm <-? getitem row "name";
  dia <-? getitem row "diameter";
  d <-? (if truthy_str dia then lift (py_float dia) else Done PyNone);
  pha <-? getitem row "pha";
  Done (NearEarthObject_init
          {| neo_kw_designation := pdes;
             neo_kw_name := if truthy_str nm then nm else None;
             neo_kw_diameter := Some d;
             neo_kw_hazardous :=
               Some (PyBool (negb (bool_decide (pha ∈ [Some ""; Some "N"])))) |}).

(** The loop of [load_neos]: [except (KeyError, ValueError)] skips the
    row, any other exception leaves the function. *)
Fixpoint load_neos_from (rows : list (gmap string (option string)))
    (neos : list NearEarthObject) : outcome (list NearEarthObject) :=
  match rows with
  | [] => Done neos
  | row :: rest =>
      match neo_of_row row with
      | Done o => load_neos_from rest (neos ++ [o])
      | Throw (KeyError _) => load_neos_from rest neos
      | Throw (Builtin (ValueError _)) => load_neos_from rest neos
      | Throw e => Throw e
      end
  end.

Definition load_neos (rows : list (gmap string (option string)))
    : outcome (list NearEarthObject) :=
  load_neos_from rows [].

(** [row[i]] on a list, for an index that is not negative *)
Definition getindex (row : list (option string)) (i : nat)
    : outcome (option string) :=
  match row !! i with
  | Some v => Done v
  | None => Throw IndexError
  end.

(** The body of the [try] in [load_approaches]; the keyword arguments are
    evaluated in the order they are written. *)
Definition approach_of_row (row : list (option string))
    : outcome CloseApproach :=
  des <-? getindex row 0;
  t <-? getindex row 3;
  r4 <-? getindex row 4;
  dist <-? lift (py_float r4);
  r7 <-? getindex row 7;
  vel <-? lift (py_float r7);
  lift (CloseApproach_init cd_to_datetime
          {| ca_kw_designation := des;
             ca_kw_time := Some (py_of_str t);
             ca_kw_distance := Some dist;
             ca_kw_velocity := Some vel;
             ca_kw_neo := None |}).

(** The loop of [load_approaches]: [except (IndexError, ValueError)]. *)
Fixpoint load_approaches_from (rows : list (list (option string)))
    (approaches_out : list CloseApproach) : outcome (list CloseApproach) :=
  match rows with
  | [] => Done approaches_out
  | row :: rest =>
      match approach_of_row row with
      | Done c => load_approaches_from rest (approaches_out ++ [c])
      | Throw IndexError => load_approaches_from rest approaches_out
      | Throw (Builtin (ValueError _)) => load_approaches_from rest approaches_out
      | Throw e => Throw e
      end
  end.

Definition load_approaches (rows : list (list (option string)))
    : outcome (list CloseApproach) :=
  load_approaches_from rows [].

End Extract.

(** The objects a loader has created, in creation order, as a store: the
    [i]-th object of each list lives at reference [i]. References beyond
    the lists hold instances that no collection mentions. *)
Definition store_of (neos : list NearEarthObject) (cas : list CloseApproach)
    : heap :=
  {| neo_at := fun r =>
       default (NearEarthObject_init
                  {| neo_kw_designation := None; neo_kw_name := None;
                     neo_kw_diameter := None; neo_kw_hazardous := None |})
               (neos !! r);
     ca_at := fun r =>
       default {| _designation := None; time := PyNone; distance := nan;
                  velocity := nan; neo := None |}
               (cas !! r) |}.

(** ** Further sample data *)

(** A store in which every approach is one of Eros. *)
Definition eros_heap : heap :=
  {| neo_at := fun r => match r with O => eros | _ => unnamed_neo end;
     ca_at := fun _ => approach_433 |}.

(** A [float] that knows the numbers of the worked data set. *)
Definition sample_float_of_str (s : string) : spec_float + string :=
  if String.eqb s "16.84" then inl (S754_finite false 4740038607807447 (-48))
  else if String.eqb s "0.15" then inl (S754_finite false 5404319552844595 (-55))
  else if String.eqb s "5.2" then inl (S754_finite false 5854679515581645 (-50))
  else if String.eqb s "0.02" then inl (S754_finite false 5764607523034235 (-58))
  else if String.eqb s "30.0" then inl (S754_finite false 8444249301319680 (-48))
  else if String.eqb s "0.0" then inl (S754_zero false)
  else inr ("could not convert string to float: '" ++ s ++ "'")%string.

(** Lines of the NEO file: Eros, an object without name and diameter, an
    object whose diameter is no number, and a line without a [pha]
    column. *)
Definition eros_row : gmap string (option string) :=
  list_to_map [("pdes", Some "433"); ("name", Some "Eros");
               ("diameter", Some "16.84"); ("pha", Some "N")].

Definition unnamed_row : gmap string (option string) :=
  list_to_map [("pdes", Some "2020 AB"); ("name", Some "");
               ("diameter", Some ""); ("pha", Some "Y")].


Definition no_pha_row : gmap string (option string) :=
  list_to_map [("pdes", Some "1221"); ("name", Some "Amor");
               ("diameter", Some "")].

(** Entries of the approach file. *)
Definition approach_row_433 : list (option string) :=
  [Some "433"; Some "659"; Some "2458849.5"; Some "2020-Jan-01 00:00";
   Some "0.15"; Some "0.14"; Some "0.16"; Some "5.2"; Some "5.1";
   Some "< 00:01"; Some "10.4"].

Definition approach_row_999 : list (option string) :=
  [Some "999"; Some "3"; Some "2458850.5"; Some "2020-Jan-02 00:00";
   Some "0.02"; Some "0.01"; Some "0.03"; Some "30.0"; Some "29.9";
   Some "< 00:01"; Some "25.1"].

Definition null_distance_row : list (option string) :=
  [Some "433"; Some "659"; Some "2458851.5"; Some "2020-Jan-03 00:00";
   None; Some "0.14"; Some "0.16"; Some "5.2"].

Definition short_row : list (option string) :=
  [Some "433"; Some "659"; Some "2458852.5"; Some "2020-Jan-04 00:00"].

(** * Properties *)

(** ** The two indices *)

Lemma designation_index_snoc h l x :
  designation_index h (l ++ [x])
  = <[designation (neo_at h x) := x]> (designation_index h l).
Proof. unfold designation_index. by rewrite foldl_app. Qed.

Lemma name_index_snoc h l x :
  name_index h (l ++ [x])
  = if truthy_str (name (neo_at h x))
    then <[name (neo_at h x) := x]> (name_index h l)
    else name_index h l.
Proof. unfold name_index. by rewrite foldl_app. Qed.

(** Whatever a designation lookup returns is a member of the collection
    and carries the key as its designation. *)
Lemma designation_index_sound h neos d n :
  designation_index h neos !! d = Some n ->
  n ∈ neos /\ designation (neo_at h n) = d.
Proof.
  induction neos as [|x l IH] using rev_ind; [done|].
  rewrite designation_index_snoc, lookup_insert.
  case_decide as Hk.
  - intros [= <-]. split; [apply elem_of_app; right; by apply list_elem_of_singleton | done].
  - intros Hl. destruct (IH Hl) as [Hin Hd]. split; [apply elem_of_app; by left | done].
Qed.

(** A designation carried by some member is a key of the index. *)
Lemma designation_index_complete h neos n :
  n ∈ neos -> is_Some (designation_index h neos !! designation (neo_at h n)).
Proof.
  induction neos as [|x l IH] using rev_ind; [by intros ?%elem_of_nil|].
  rewrite designation_index_snoc, lookup_insert. intros Hin.
  case_decide as Hk; [by eexists|].
  apply IH. apply elem_of_app in Hin as [Hin|Hin]; [done|].
  apply list_elem_of_singleton in Hin. by subst.
Qed.

(** With unique designations the index returns the member itself. *)
Lemma designation_index_unique h neos n :
  (forall m1 m2, m1 ∈ neos -> m2 ∈ neos ->
     designation (neo_at h m1) = designation (neo_at h m2) -> m1 = m2) ->
  n ∈ neos ->
  designation_index h neos !! designation (neo_at h n) = Some n.
Proof.
  intros Huniq Hin.
  destruct (designation_index_complete h neos n Hin) as [m Hm].
  destruct (designation_index_sound _ _ _ _ Hm) as [Hmin Hmd].
  by rewrite Hm, (Huniq m n Hmin Hin Hmd).
Qed.

Lemma name_index_sound h neos k n :
  name_index h neos !! k = Some n ->
  n ∈ neos /\ name (neo_at h n) = k /\ truthy_str (name (neo_at h n)) = true.
Proof.
  induction neos as [|x l IH] using rev_ind; [done|].
  rewrite name_index_snoc.
  destruct (truthy_str (name (neo_at h x))) eqn:Ht.
  - rewrite lookup_insert. case_decide as Hk.
    + intros [= <-]. split; [apply elem_of_app; right; by apply list_elem_of_singleton | done].
    + intros Hl. destruct (IH Hl) as (Hin & Hd & Hn). split; [apply elem_of_app; by left | done].
  - intros Hl. destruct (IH Hl) as (Hin & Hd & Hn). split; [apply elem_of_app; by left | done].
Qed.

Lemma name_index_complete h neos n :
  n ∈ neos -> truthy_str (name (neo_at h n)) = true ->
  is_Some (name_index h neos !! name (neo_at h n)).
Proof.
  induction neos as [|x l IH] using rev_ind; [by intros ?%elem_of_nil|].
  rewrite name_index_snoc. intros Hin Ht.
  apply elem_of_app in Hin as [Hin|Hin].
  - destruct (truthy_str (name (neo_at h x))); [|by apply IH].
    rewrite lookup_insert. case_decide; [by eexists | by apply IH].
  - apply list_elem_of_singleton in Hin. subst x.
    rewrite Ht, lookup_insert_eq. by eexists.
Qed.

(** ** The linking loop *)

(** One iteration, attribute by attribute. *)
Lemma link_approach_ca_designation idx h a c :
  _designation (ca_at (link_approach idx h a) c) = _designation (ca_at h c).
Proof.
  unfold link_approach. destruct (idx !! _) as [n|]; [|done]. simpl.
  destruct (decide (a = c)) as [->|Hne].
  - by rewrite fn_lookup_insert.
  - by rewrite fn_lookup_insert_ne.
Qed.

Lemma link_approach_neo idx h a c :
  neo (ca_at (link_approach idx h a) c)
  = if decide (c = a)
    then match idx !! _designation (ca_at h a) with
         | Some n => Some n
         | None => neo (ca_at h a)
         end
    else neo (ca_at h c).
Proof.
  unfold link_approach. destruct (idx !! _) as [n|]; simpl.
  - case_decide as Hc.
    + subst c. by rewrite fn_lookup_insert.
    + by rewrite fn_lookup_insert_ne.
  - case_decide; by subst.
Qed.

Lemma link_approach_approaches idx h a n :
  approaches (neo_at (link_approach idx h a) n)
  = approaches (neo_at h n)
    ++ (if decide (idx !! _designation (ca_at h a) = Some n) then [a] else []).
Proof.
  unfold link_approach. destruct (idx !! _) as [m|]; simpl.
  - case_decide as Hm.
    + injection Hm as ->. by rewrite fn_lookup_insert.
    + rewrite fn_lookup_insert_ne by congruence. by rewrite app_nil_r.
  - by rewrite app_nil_r.
Qed.

Lemma link_approach_neo_attrs idx h a n :
  designation (neo_at (link_approach idx h a) n) = designation (neo_at h n)
  /\ name (neo_at (link_approach idx h a) n) = name (neo_at h n)
  /\ diameter (neo_at (link_approach idx h a) n) = diameter (neo_at h n)
  /\ hazardous (neo_at (link_approach idx h a) n) = hazardous (neo_at h n).
Proof.
  unfold link_approach. destruct (idx !! _) as [m|]; [|done]. simpl.
  destruct (decide (m = n)) as [->|Hne].
  - by rewrite fn_lookup_insert.
  - by rewrite fn_lookup_insert_ne.
Qed.

(** The whole loop. *)
Lemma link_all_ca_designation idx l h c :
  _designation (ca_at (foldl (link_approach idx) h l) c) = _designation (ca_at h c).
Proof.
  revert h. induction l as [|a l IH]; intros h; simpl; [done|].
  by rewrite IH, link_approach_ca_designation.
Qed.

Lemma link_all_neo_attrs idx l h n :
  designation (neo_at (foldl (link_approach idx) h l) n) = designation (neo_at h n)
  /\ name (neo_at (foldl (link_approach idx) h l) n) = name (neo_at h n)
  /\ diameter (neo_at (foldl (link_approach idx) h l) n) = diameter (neo_at h n)
  /\ hazardous (neo_at (foldl (link_approach idx) h l) n) = hazardous (neo_at h n).
Proof.
  revert h. induction l as [|a l IH]; intros h; simpl; [done|].
  destruct (IH (link_approach idx h a)) as (-> & -> & -> & ->).
  apply link_approach_neo_attrs.
Qed.

(** An approach that the loop visits receives the NEO its designation
    resolves to; any other approach keeps its back-reference. *)
Lemma link_all_neo idx l h c :
  neo (ca_at (foldl (link_approach idx) h l) c)
  = if decide (c ∈ l)
    then match idx !! _designation (ca_at h c) with
         | Some n => Some n
         | None => neo (ca_at h c)
         end
    else neo (ca_at h c).
Proof.
  revert h. induction l as [|a l IH]; intros h; cbn [foldl].
  - rewrite decide_False; [done | apply not_elem_of_nil].
  - rewrite IH, link_approach_neo, link_approach_ca_designation.
    destruct (decide (c = a)) as [->|Hne].
    + rewrite (decide_True (P := a ∈ a :: l)) by constructor.
      case_decide; [|done]. by destruct (idx !! _).
    + destruct (decide (c ∈ l)) as [Hin|Hnin].
      * rewrite decide_True; [done | by apply elem_of_cons; right].
      * rewrite decide_False; [done|].
        intros [?|?]%elem_of_cons; contradiction.
Qed.

(** The list of a NEO grows by the visited approaches that resolve to it,
    in visiting order. *)
Lemma link_all_approaches idx l h n :
  approaches (neo_at (foldl (link_approach idx) h l) n)
  = approaches (neo_at h n)
    ++ filter (fun c => idx !! _designation (ca_at h c) = Some n) l.
Proof.
  revert h. induction l as [|a l IH]; intros h; cbn [foldl].
  - by rewrite filter_nil, app_nil_r.
  - rewrite IH, link_approach_approaches, <- app_assoc. f_equal.
    rewrite filter_cons.
    rewrite (list_filter_iff
      (fun c => idx !! _designation (ca_at (link_approach idx h a) c) = Some n)
      (fun c => idx !! _designation (ca_at h c) = Some n)).
    2:{ intros c. by rewrite link_approach_ca_designation. }
    by case_decide.
Qed.

(** Construction leaves the identifying attributes of every NEO alone. *)
Lemma init_neo_attrs h neos approaches_in n :
  designation (neo_at (fst (NEODatabase_init h neos approaches_in)) n)
    = designation (neo_at h n)
  /\ name (neo_at (fst (NEODatabase_init h neos approaches_in)) n)
    = name (neo_at h n)
  /\ diameter (neo_at (fst (NEODatabase_init h neos approaches_in)) n)
    = diameter (neo_at h n)
  /\ hazardous (neo_at (fst (NEODatabase_init h neos approaches_in)) n)
    = hazardous (neo_at h n).
Proof. apply link_all_neo_attrs. Qed.

(** ** The generator *)

Lemma next_yield g a :
  gen_seq g !! gen_pos g = Some a ->
  next g = (Some a, {| gen_filters := gen_filters g; gen_seq := gen_seq g;
                       gen_pos := S (gen_pos g) |}).
Proof. intros H. unfold next. by rewrite H. Qed.

Lemma next_stop g :
  gen_seq g !! gen_pos g = None -> next g = (None, g).
Proof. intros H. unfold next. by rewrite H. Qed.

(** Draining with enough fuel yields the elements from the iterator's
    position on and leaves the generator exhausted. *)
Lemma collect_drop fuel g :
  List.length (gen_seq g) - gen_pos g < fuel ->
  fst (collect fuel g) = drop (gen_pos g) (gen_seq g)
  /\ fst (next (snd (collect fuel g))) = None
  /\ gen_seq (snd (collect fuel g)) = gen_seq g.
Proof.
  revert g. induction fuel as [|k IH]; intros g Hfuel; [lia|].
  cbn [collect].
  destruct (gen_seq g !! gen_pos g) as [a|] eqn:Hnth.
  - rewrite (next_yield _ _ Hnth).
    pose proof (lookup_lt_Some _ _ _ Hnth) as Hlt.
    set (g' := {| gen_filters := gen_filters g; gen_seq := gen_seq g;
                  gen_pos := S (gen_pos g) |}).
    destruct (IH g') as (Hl & Hstop & Hseq); [simpl; lia|].
    destruct (collect k g') as [l g'']. simpl in *.
    split; [|done]. rewrite Hl. symmetry. by apply drop_S.
  - rewrite (next_stop _ Hnth). simpl. split; [|split; [|done]].
    + symmetry. apply drop_ge. by apply lookup_ge_None.
    + by rewrite (next_stop _ Hnth).
Qed.

Lemma to_list_fresh db filters :
  fst (to_list (query db filters)) = _approaches db.
Proof.
  unfold to_list.
  destruct (collect_drop (S (List.length (gen_seq (query db filters))
                             - gen_pos (query db filters)))
                         (query db filters)) as [-> _]; [lia|].
  done.
Qed.

(** Calling [next] on one generator leaves every other one as it is. *)
Lemma call_next_other gs i j :
  i <> j -> snd (call_next gs i) !! j = gs !! j.
Proof.
  intros Hne. unfold call_next.
  destruct (gs !! i) as [g|]; [|done].
  destruct (next g) as [r g']. simpl. by apply list_lookup_insert_ne.
Qed.

Lemma advance_other k gs i j :
  i <> j -> advance k gs i !! j = gs !! j.
Proof.
  intros Hne. revert gs. induction k as [|k IH]; intros gs; simpl; [done|].
  by rewrite IH, call_next_other.
Qed.

(** ** Lookups *)

(** C3. With unique designations in the NEO collection,
    [get_neo_by_designation d] returns the NEO of the collection whose
    designation is [d] when there is one, and [None] when there is none;
    whatever it returns is a member of the collection with designation
    [d]. The lookup is a total function: it raises nothing. *)
Theorem get_neo_by_designation_correct h neos approaches_in d :
  (forall m1 m2, m1 ∈ neos -> m2 ∈ neos ->
     designation (neo_at h m1) = designation (neo_at h m2) -> m1 = m2) ->
  let h' := fst (NEODatabase_init h neos approaches_in) in
  let db := snd (NEODatabase_init h neos approaches_in) in
  (forall n, n ∈ neos -> designation (neo_at h' n) = d ->
     get_neo_by_designation db d = Some n)
  /\ ((forall n, n ∈ neos -> designation (neo_at h' n) <> d) ->
      get_neo_by_designation db d = None)
  /\ (forall n, get_neo_by_designation db d = Some n ->
      n ∈ neos /\ designation (neo_at h' n) = d).
Proof.
  intros Huniq h' db. unfold get_neo_by_designation. subst h' db. simpl.
  split; [|split].
  - intros n Hin Hd.
    destruct (init_neo_attrs h neos approaches_in n) as [Hsame _].
    simpl in Hsame. rewrite Hsame in Hd. subst d.
    by apply designation_index_unique.
  - intros Hnone.
    destruct (designation_index h neos !! d) as [n|] eqn:Hl; [|done].
    destruct (designation_index_sound _ _ _ _ Hl) as [Hin Hd].
    exfalso. apply (Hnone n Hin).
    destruct (init_neo_attrs h neos approaches_in n) as [Hsame _].
    simpl in Hsame. by rewrite Hsame.
  - intros n Hl.
    destruct (designation_index_sound _ _ _ _ Hl) as [Hin Hd].
    split; [done|].
    destruct (init_neo_attrs h neos approaches_in n) as [Hsame _].
    simpl in Hsame. by rewrite Hsame.
Qed.

(** C4, as amended. With unique names among the named NEOs, for every NEO
    of the collection whose name is present and not the empty string,
    [get_neo_by_name] on that name returns that NEO; and a NEO whose name
    is absent or empty is returned by no name lookup, whatever the
    argument. *)
Theorem get_neo_by_name_correct h neos approaches_in :
  (forall m1 m2, m1 ∈ neos -> m2 ∈ neos ->
     truthy_str (name (neo_at h m1)) = true ->
     name (neo_at h m1) = name (neo_at h m2) -> m1 = m2) ->
  let h' := fst (NEODatabase_init h neos approaches_in) in
  let db := snd (NEODatabase_init h neos approaches_in) in
  (forall n s, n ∈ neos -> name (neo_at h' n) = Some s -> s <> "" ->
     get_neo_by_name db (Some s) = Some n)
  /\ (forall n k, truthy_str (name (neo_at h' n)) = false ->
      get_neo_by_name db k <> Some n).
Proof.
  intros Huniq h' db. unfold get_neo_by_name. subst h' db. simpl.
  split.
  - intros n s Hin Hname Hs.
    destruct (init_neo_attrs h neos approaches_in n) as (_ & Hsame & _).
    simpl in Hsame. rewrite Hsame in Hname.
    assert (Ht : truthy_str (name (neo_at h n)) = true).
    { rewrite Hname. simpl. apply negb_true_iff. by apply String.eqb_neq. }
    destruct (name_index_complete h neos n Hin Ht) as [m Hm].
    destruct (name_index_sound _ _ _ _ Hm) as (Hmin & Hmn & Hmt).
    rewrite <- Hname, Hm. f_equal. by apply Huniq.
  - intros n k Hfalsy Hl.
    destruct (name_index_sound _ _ _ _ Hl) as (_ & _ & Ht).
    destruct (init_neo_attrs h neos approaches_in n) as (_ & Hsame & _).
    simpl in Hsame. rewrite Hsame in Hfalsy. congruence.
Qed.

Lemma get_neo_by_designation_correct_witness :
  (forall m1 m2, m1 ∈ [0] -> m2 ∈ [0] ->
     designation (neo_at sample_heap m1) = designation (neo_at sample_heap m2) ->
     m1 = m2)
  /\ get_neo_by_designation (snd sample_db) (Some "433") = Some 0.
Proof.
  assert (Huniq : forall m1 m2 : neo_ref, m1 ∈ [0] -> m2 ∈ [0] ->
            designation (neo_at sample_heap m1)
            = designation (neo_at sample_heap m2) -> m1 = m2).
  { intros m1 m2 H1 H2 _.
    apply list_elem_of_singleton in H1, H2. congruence. }
  split; [exact Huniq|].
  refine (proj1 (get_neo_by_designation_correct
                   sample_heap [0] [0; 1] (Some "433") Huniq) 0 _ _).
  - constructor.
  - reflexivity.
Defined.

(** C4, the claim as stated fails on a name that is present but empty:
    the index is built with [if neo.name], which skips the empty string,
    so looking that name up finds nothing. *)
Lemma get_neo_by_name_empty_name_counterexample :
  0 ∈ [0]
  /\ name (neo_at (fst (NEODatabase_init blank_name_heap [0] [])) 0) = Some ""
  /\ get_neo_by_name (snd (NEODatabase_init blank_name_heap [0] [])) (Some "")
     = None
  /\ get_neo_by_name (snd (NEODatabase_init blank_name_heap [0] [])) (Some "")
     <> Some 0.
Proof. split; [constructor|]. by vm_compute. Qed.

Lemma get_neo_by_name_correct_witness :
  (forall m1 m2, m1 ∈ [0; 1] -> m2 ∈ [0; 1] ->
     truthy_str (name (neo_at sample_heap m1)) = true ->
     name (neo_at sample_heap m1) = name (neo_at sample_heap m2) -> m1 = m2)
  /\ get_neo_by_name (snd (NEODatabase_init sample_heap [0; 1] [0; 1]))
       (Some "Eros") = Some 0
  /\ (forall k, get_neo_by_name (snd (NEODatabase_init sample_heap [0; 1] [0; 1])) k
                <> Some 1).
Proof.
  assert (Huniq : forall m1 m2 : neo_ref, m1 ∈ [0; 1] -> m2 ∈ [0; 1] ->
            truthy_str (name (neo_at sample_heap m1)) = true ->
            name (neo_at sample_heap m1) = name (neo_at sample_heap m2) ->
            m1 = m2).
  { intros m1 m2 H1 H2.
    apply elem_of_cons in H1 as [->|H1]; [|apply list_elem_of_singleton in H1 as ->];
    (apply elem_of_cons in H2 as [->|H2]; [|apply list_elem_of_singleton in H2 as ->]);
    simpl; intros; congruence. }
  split; [exact Huniq|].
  pose proof (get_neo_by_name_correct sample_heap [0; 1] [0; 1] Huniq) as [Hfound Hnever].
  split.
  - apply Hfound; [constructor | reflexivity | discriminate].
  - intros k. apply Hnever. reflexivity.
Defined.

(** ** Linking *)

(** C2. Let the NEO collection have unique designations and the approach
    collection hold each approach once, and let approach [a] of the
    collection carry the designation of NEO [n] of the collection, whose
    list does not hold [a] beforehand (a newly constructed NEO has an
    empty list). After construction [a.neo] is [n] and [n.approaches]
    holds [a] exactly once. *)
Theorem linked_approach_refers_to_neo_once h neos approaches_in a n :
  (forall m1 m2, m1 ∈ neos -> m2 ∈ neos ->
     designation (neo_at h m1) = designation (neo_at h m2) -> m1 = m2) ->
  NoDup approaches_in ->
  a ∉ approaches (neo_at h n) ->
  a ∈ approaches_in ->
  n ∈ neos ->
  _designation (ca_at h a) = designation (neo_at h n) ->
  let h' := fst (NEODatabase_init h neos approaches_in) in
  neo (ca_at h' a) = Some n
  /\ count_occ Nat.eq_dec (approaches (neo_at h' n)) a = 1.
Proof.
  intros Huniq Hnodup Hfresh Ha Hn Hdes h'. subst h'. simpl.
  assert (Hidx : designation_index h neos !! _designation (ca_at h a) = Some n).
  { rewrite Hdes. by apply designation_index_unique. }
  split.
  - rewrite link_all_neo, decide_True by done. by rewrite Hidx.
  - rewrite link_all_approaches, count_occ_app.
    rewrite (proj1 (count_occ_not_In Nat.eq_dec _ a)).
    2:{ intros Hin. apply Hfresh. by apply list_elem_of_In. }
    simpl. apply NoDup_count_occ'.
    + by apply NoDup_ListNoDup, list.NoDup_filter.
    + apply list_elem_of_In, list_elem_of_filter. by split.
Qed.

Lemma linked_approach_refers_to_neo_once_witness :
  NoDup [0; 1]
  /\ neo (ca_at (fst sample_db) 0) = Some 0
  /\ count_occ Nat.eq_dec (approaches (neo_at (fst sample_db) 0)) 0 = 1.
Proof.
  assert (Hnodup : NoDup [0; 1]).
  { apply NoDup_cons_2.
    - intros H. by apply list_elem_of_singleton in H.
    - apply NoDup_cons_2; [apply not_elem_of_nil | apply NoDup_nil_2]. }
  split; [exact Hnodup|].
  apply (linked_approach_refers_to_neo_once sample_heap [0] [0; 1] 0 0).
  - intros m1 m2 H1 H2 _. apply list_elem_of_singleton in H1, H2. congruence.
  - exact Hnodup.
  - simpl. apply not_elem_of_nil.
  - constructor.
  - constructor.
  - reflexivity.
Defined.

(** C6. Let approach [a] of the collection carry a designation that no
    NEO of the collection has, let its back-reference be absent and let
    no NEO list hold it beforehand. After construction, which raises
    nothing, [a.neo] is still absent, no NEO list holds [a], and an
    unfiltered [query] yields [a]. *)
Theorem unmatched_approach_stays_unlinked h neos approaches_in a :
  a ∈ approaches_in ->
  (forall n, n ∈ neos -> designation (neo_at h n) <> _designation (ca_at h a)) ->
  neo (ca_at h a) = None ->
  (forall n, a ∉ approaches (neo_at h n)) ->
  let h' := fst (NEODatabase_init h neos approaches_in) in
  let db := snd (NEODatabase_init h neos approaches_in) in
  neo (ca_at h' a) = None
  /\ (forall n, a ∉ approaches (neo_at h' n))
  /\ a ∈ fst (to_list (query db [])).
Proof.
  intros Ha Hunknown Habsent Hfresh h' db. subst h' db. simpl.
  assert (Hidx : designation_index h neos !! _designation (ca_at h a) = None).
  { destruct (designation_index h neos !! _) as [n|] eqn:Hl; [|done].
    destruct (designation_index_sound _ _ _ _ Hl) as [Hin Hd].
    by destruct (Hunknown n Hin). }
  split; [|split].
  - rewrite link_all_neo, Hidx. by case_decide.
  - intros n. rewrite link_all_approaches.
    intros [Hold|Hnew]%elem_of_app.
    + by apply (Hfresh n).
    + apply list_elem_of_filter in Hnew as [Hres _]. congruence.
  - by rewrite to_list_fresh.
Qed.

Lemma unmatched_approach_stays_unlinked_witness :
  neo (ca_at (fst sample_db) 1) = None
  /\ (forall n, 1 ∉ approaches (neo_at (fst sample_db) n))
  /\ 1 ∈ fst (to_list (query (snd sample_db) [])).
Proof.
  apply (unmatched_approach_stays_unlinked sample_heap [0] [0; 1] 1).
  - apply list_elem_of_further. constructor.
  - intros n Hn. apply list_elem_of_singleton in Hn as ->. discriminate.
  - reflexivity.
  - intros [|n]; simpl; apply not_elem_of_nil.
Defined.

(** ** Queries *)

(** C5. A [query] without filters yields the approach collection given to
    the constructor, element for element in the same order, hence with
    the same length; after the last element the generator is exhausted. *)
Theorem query_without_filters_yields_input h neos approaches_in :
  let db := snd (NEODatabase_init h neos approaches_in) in
  fst (to_list (query db [])) = approaches_in
  /\ List.length (fst (to_list (query db []))) = List.length approaches_in
  /\ fst (next (snd (to_list (query db [])))) = None.
Proof.
  intros db. rewrite to_list_fresh. subst db. simpl.
  split; [done|]. split; [done|].
  unfold to_list. apply collect_drop. simpl. lia.
Qed.

(** C1, at the failing input. On the worked data set with the single
    filter that rejects every approach, [query] yields both approaches,
    although no approach satisfies every filter and the documented
    behaviour is the empty sequence. *)
Theorem query_ignores_filters :
  fst (to_list (query (snd sample_db) [never])) = [0; 1]
  /\ forallb (fun f => f (fst sample_db) 0) [never] = false
  /\ query_matching (fst sample_db) (snd sample_db) [never] = [].
Proof. by vm_compute. Qed.

(** C9. Two calls of [query] on one database, whatever their filter
    collections, yield the same references and so, read in the same
    store, structurally equal records element by element. Each call makes
    a generator object of its own: consuming any number of elements of one
    leaves the other yielding the whole collection. *)
Theorem query_twice_same_contents h db fs1 fs2 gs k :
  let r1 := call_query gs db fs1 in
  let r2 := call_query (snd r1) db fs2 in
  fst (to_list (query db fs1)) = fst (to_list (query db fs2))
  /\ map (ca_at h) (fst (to_list (query db fs1)))
     = map (ca_at h) (fst (to_list (query db fs2)))
  /\ fst r1 <> fst r2
  /\ fst (call_to_list (advance k (snd r2) (fst r1)) (fst r2))
     = Some (_approaches db)
  /\ fst (call_to_list (advance k (snd r2) (fst r2)) (fst r1))
     = Some (_approaches db).
Proof.
  intros r1 r2. subst r1 r2. unfold call_query. simpl.
  rewrite !to_list_fresh.
  split; [done|]. split; [done|].
  rewrite length_app. simpl.
  split; [lia|].
  unfold call_to_list.
  split.
  - rewrite advance_other by lia.
    rewrite lookup_app_r by (rewrite length_app; simpl; lia).
    rewrite length_app. simpl.
    replace (List.length gs + 1 - (List.length gs + 1)) with 0 by lia. simpl.
    pose proof (to_list_fresh db fs2) as Hl.
    destruct (to_list (query db fs2)) as [l g']. simpl in *. by rewrite Hl.
  - rewrite advance_other by lia.
    rewrite lookup_app_l by (rewrite length_app; simpl; lia).
    rewrite lookup_app_r by lia.
    replace (List.length gs - List.length gs) with 0 by lia. simpl.
    pose proof (to_list_fresh db fs1) as Hl.
    destruct (to_list (query db fs1)) as [l g']. simpl in *. by rewrite Hl.
Qed.

(** ** Constructors *)

Lemma float_eq_nan_l w : float_eq nan w = false.
Proof. by destruct w. Qed.

Lemma truthy_not_zero v s :
  truthy v = true ->
  v <> PyFloat (S754_zero s) /\ float_eq v (PyFloat (S754_zero s)) = false.
Proof.
  intros Ht. split; [by intros ->|].
  destruct v as [| | |f| |]; try done.
  destruct f as [z|i| |sg m e]; try done; [by destruct i | by destruct sg].
Qed.

Lemma NearEarthObject_init_diameter_truthy info :
  truthy (diameter (NearEarthObject_init info)) = true.
Proof.
  unfold NearEarthObject_init. simpl.
  by destruct (truthy (kw_get (neo_kw_diameter info))) eqn:Ht.
Qed.

(** C7. Whatever the date parser does: when [CloseApproach.__init__]
    returns an instance, its [distance] and [velocity] are floats, the NaN
    when the keyword was not supplied and the supplied value otherwise;
    and when a supplied [distance] or [velocity] is not a float the
    constructor itself raises. *)
Theorem CloseApproach_init_float_attributes cd info :
  (forall ca, CloseApproach_init cd info = Ok ca ->
     isinstance_float (distance ca) = true
     /\ isinstance_float (velocity ca) = true
     /\ (ca_kw_distance info = None -> distance ca = nan)
     /\ (forall v, ca_kw_distance info = Some v -> distance ca = v)
     /\ (ca_kw_velocity info = None -> velocity ca = nan)
     /\ (forall v, ca_kw_velocity info = Some v -> velocity ca = v))
  /\ (forall v, ca_kw_distance info = Some v \/ ca_kw_velocity info = Some v ->
        isinstance_float v = false ->
        exists e, CloseApproach_init cd info = Raise e).
Proof.
  unfold CloseApproach_init.
  destruct (if truthy (kw_get (ca_kw_time info)) then _ else _) as [t'|e];
    simpl; [|split; [done | by eexists]].
  destruct (isinstance_float (kw_get_default (ca_kw_distance info) nan)) eqn:Hd;
    simpl.
  - destruct (isinstance_float (kw_get_default (ca_kw_velocity info) nan)) eqn:Hv;
      simpl.
    + split.
      * intros ca [= <-]. simpl.
        split; [done|]. split; [done|].
        split; [by intros ->|]. split; [by intros v ->|].
        split; [by intros ->|by intros v ->].
      * intros v [Hs|Hs] Hnf; rewrite Hs in *; simpl in *; congruence.
    + split; [done | by eexists].
  - split; [done | by eexists].
Qed.

Lemma CloseApproach_init_float_attributes_witness :
  (exists ca,
     CloseApproach_init parse_any
       {| ca_kw_designation := Some "433";
          ca_kw_time := Some (PyStr "2020-Jan-01 00:00");
          ca_kw_distance := Some f_0_15;
          ca_kw_velocity := None;
          ca_kw_neo := None |} = Ok ca
     /\ distance ca = f_0_15 /\ velocity ca = nan)
  /\ (exists e,
        CloseApproach_init parse_any
          {| ca_kw_designation := Some "433";
             ca_kw_time := Some (PyStr "2020-Jan-01 00:00");
             ca_kw_distance := Some (PyInt 1);
             ca_kw_velocity := Some f_5_2;
             ca_kw_neo := None |} = Raise e).
Proof.
  split.
  - eexists. split; [reflexivity|].
    destruct (proj1 (CloseApproach_init_float_attributes parse_any
                {| ca_kw_designation := Some "433";
                   ca_kw_time := Some (PyStr "2020-Jan-01 00:00");
                   ca_kw_distance := Some f_0_15;
                   ca_kw_velocity := None;
                   ca_kw_neo := None |}) _ eq_refl)
      as (_ & _ & _ & Hd & Hv & _).
    split; [by apply Hd | by apply Hv].
  - apply (proj2 (CloseApproach_init_float_attributes parse_any _) (PyInt 1));
      [by left | reflexivity].
Defined.

(** C8. A [NearEarthObject] constructed without a [diameter] keyword
    stores the NaN as its diameter: a float that compares equal to no
    value and that is not a zero of either kind. *)
Theorem missing_diameter_is_nan info :
  neo_kw_diameter info = None ->
  diameter (NearEarthObject_init info) = nan
  /\ isnan (diameter (NearEarthObject_init info)) = true
  /\ (forall w, float_eq (diameter (NearEarthObject_init info)) w = false)
  /\ (forall s, diameter (NearEarthObject_init info) <> PyFloat (S754_zero s))
  /\ diameter (NearEarthObject_init info) <> PyInt 0.
Proof.
  intros Hmissing. unfold NearEarthObject_init. simpl. rewrite Hmissing. simpl.
  repeat split; try done. apply float_eq_nan_l.
Qed.

Lemma missing_diameter_is_nan_witness :
  neo_kw_diameter
    {| neo_kw_designation := Some "2020 AB"; neo_kw_name := None;
       neo_kw_diameter := None; neo_kw_hazardous := Some (PyBool false) |} = None
  /\ diameter unnamed_neo = nan.
Proof.
  split; [reflexivity|].
  apply (missing_diameter_is_nan
           {| neo_kw_designation := Some "2020 AB"; neo_kw_name := None;
              neo_kw_diameter := None;
              neo_kw_hazardous := Some (PyBool false) |}).
  reflexivity.
Defined.

(** C10. Whenever the supplied diameter is falsy, a supplied zero float
    of either sign included, [NearEarthObject.__init__] stores the NaN
    instead; so the stored diameter of a constructed NEO is always truthy,
    is never a zero and compares equal to no zero. *)
Theorem falsy_diameter_becomes_nan info :
  (truthy (kw_get (neo_kw_diameter info)) = false ->
     diameter (NearEarthObject_init info) = nan)
  /\ (forall s, neo_kw_diameter info = Some (PyFloat (S754_zero s)) ->
        diameter (NearEarthObject_init info) = nan)
  /\ truthy (diameter (NearEarthObject_init info)) = true
  /\ (forall s, diameter (NearEarthObject_init info) <> PyFloat (S754_zero s)
                /\ float_eq (diameter (NearEarthObject_init info))
                            (PyFloat (S754_zero s)) = false).
Proof.
  split; [|split; [|split]].
  - intros Hf. unfold NearEarthObject_init. simpl. by rewrite Hf.
  - intros s Hz. unfold NearEarthObject_init. simpl. by rewrite Hz.
  - apply NearEarthObject_init_diameter_truthy.
  - intros s. apply truthy_not_zero, NearEarthObject_init_diameter_truthy.
Qed.

Lemma falsy_diameter_becomes_nan_witness :
  truthy (PyFloat (S754_zero false)) = false
  /\ diameter (NearEarthObject_init
       {| neo_kw_designation := Some "433"; neo_kw_name := Some "Eros";
          neo_kw_diameter := Some (PyFloat (S754_zero false));
          neo_kw_hazardous := Some (PyBool false) |}) = nan.
Proof.
  split; [reflexivity|].
  apply (proj1 (falsy_diameter_becomes_nan
           {| neo_kw_designation := Some "433"; neo_kw_name := Some "Eros";
              neo_kw_diameter := Some (PyFloat (S754_zero false));
              neo_kw_hazardous := Some (PyBool false) |})).
  reflexivity.
Defined.

(** * Further properties of the database *)

(** ** Helper facts *)

(** The indices read nothing but designations and names. *)
Lemma designation_index_ext h1 h2 neos :
  (forall n, designation (neo_at h1 n) = designation (neo_at h2 n)) ->
  designation_index h1 neos = designation_index h2 neos.
Proof.
  intros Hsame. induction neos as [|x l IH] using rev_ind; [done|].
  by rewrite !designation_index_snoc, IH, Hsame.
Qed.

Lemma link_approach_ca_attrs idx h a c :
  time (ca_at (link_approach idx h a) c) = time (ca_at h c)
  /\ distance (ca_at (link_approach idx h a) c) = distance (ca_at h c)
  /\ velocity (ca_at (link_approach idx h a) c) = velocity (ca_at h c).
Proof.
  unfold link_approach. destruct (idx !! _) as [n|]; [|done]. simpl.
  destruct (decide (a = c)) as [->|Hne].
  - by rewrite fn_lookup_insert.
  - by rewrite fn_lookup_insert_ne.
Qed.

Lemma link_all_ca_attrs idx l h c :
  time (ca_at (foldl (link_approach idx) h l) c) = time (ca_at h c)
  /\ distance (ca_at (foldl (link_approach idx) h l) c) = distance (ca_at h c)
  /\ velocity (ca_at (foldl (link_approach idx) h l) c) = velocity (ca_at h c).
Proof.
  revert h. induction l as [|a l IH]; intros h; simpl; [done|].
  destruct (IH (link_approach idx h a)) as (-> & -> & ->).
  apply link_approach_ca_attrs.
Qed.

(** The loop touches only the approaches it visits and only the NEOs that
    a visited approach resolves to. *)
Lemma link_all_ca_untouched idx l h c :
  c ∉ l -> ca_at (foldl (link_approach idx) h l) c = ca_at h c.
Proof.
  revert h. induction l as [|a l IH]; intros h Hc; simpl; [done|].
  rewrite IH by (intros ?; apply Hc; by right).
  unfold link_approach. destruct (idx !! _) as [n|]; [|done]. simpl.
  apply fn_lookup_insert_ne. intros ->. apply Hc. by left.
Qed.

Lemma link_all_neo_untouched idx l h n :
  (forall a, a ∈ l -> idx !! _designation (ca_at h a) <> Some n) ->
  neo_at (foldl (link_approach idx) h l) n = neo_at h n.
Proof.
  revert h. induction l as [|a l IH]; intros h Hn; simpl; [done|].
  rewrite IH.
  - unfold link_approach.
    destruct (idx !! _designation (ca_at h a)) as [m|] eqn:Hm; [|done]. simpl.
    apply fn_lookup_insert_ne. intros ->. apply (Hn a); [by left | done].
  - intros c Hc. rewrite link_approach_ca_designation. apply Hn. by right.
Qed.

Lemma count_occ_filter (P : nat -> Prop) `{!forall x, Decision (P x)} l a :
  count_occ Nat.eq_dec (filter P l) a
  = if decide (P a) then count_occ Nat.eq_dec l a else 0.
Proof.
  induction l as [|x l IH]; [by case_decide|].
  rewrite filter_cons. destruct (decide (P x)) as [Hx|Hx]; simpl.
  - destruct (Nat.eq_dec x a) as [->|Hne].
    + rewrite IH. by rewrite !decide_True.
    + done.
  - destruct (Nat.eq_dec x a) as [->|Hne]; [|done].
    rewrite IH. by rewrite !decide_False.
Qed.

(** ** Duplicate keys and keys that are never indexed *)

(** X1. When several NEOs of the collection carry one designation, the
    designation index keeps the last of them: a NEO is returned for its
    designation whenever no NEO after it in the collection has the same
    designation, whatever comes before it. *)
Theorem get_neo_by_designation_last_wins h before n after approaches_in :
  (forall m, m ∈ after -> designation (neo_at h m) <> designation (neo_at h n)) ->
  get_neo_by_designation
    (snd (NEODatabase_init h (before ++ n :: after) approaches_in))
    (designation (neo_at h n)) = Some n.
Proof.
  unfold get_neo_by_designation. simpl.
  induction after as [|x l IH] using rev_ind; intros Hafter.
  - rewrite designation_index_snoc. apply lookup_insert_eq.
  - replace (before ++ n :: l ++ [x]) with ((before ++ n :: l) ++ [x])
      by (by rewrite <- app_assoc).
    rewrite designation_index_snoc, lookup_insert_ne.
    + apply IH. intros m Hm. apply Hafter, elem_of_app. by left.
    + apply Hafter, elem_of_app. right. by apply list_elem_of_singleton.
Qed.

Lemma get_neo_by_designation_last_wins_witness :
  designation (neo_at sample_heap 1) = designation (neo_at sample_heap 2)
  /\ get_neo_by_designation
       (snd (NEODatabase_init sample_heap [1; 2; 0] [0; 1]))
       (Some "2020 AB") = Some 2.
Proof.
  split; [reflexivity|].
  apply (get_neo_by_designation_last_wins sample_heap [1] 2 [0] [0; 1]).
  intros m Hm. apply list_elem_of_singleton in Hm as ->. discriminate.
Defined.



(** X3. A name lookup with [None] or with the empty string finds nothing,
    whichever NEOs the database was built from. *)
Theorem get_neo_by_name_falsy_key h neos approaches_in k :
  truthy_str k = false ->
  get_neo_by_name (snd (NEODatabase_init h neos approaches_in)) k = None.
Proof.
  intros Hk. unfold get_neo_by_name. simpl.
  destruct (name_index h neos !! k) as [n|] eqn:Hl; [|done].
  destruct (name_index_sound _ _ _ _ Hl) as (_ & Hn & Ht). congruence.
Qed.

Lemma get_neo_by_name_falsy_key_witness :
  get_neo_by_name (snd (NEODatabase_init blank_name_heap [0; 1] [])) (Some "")
  = None
  /\ get_neo_by_name (snd sample_db) None = None.
Proof.
  split.
  - by apply (get_neo_by_name_falsy_key blank_name_heap [0; 1] [] (Some "")).
  - by apply (get_neo_by_name_falsy_key sample_heap [0] [0; 1] None).
Defined.

(** X4. Every NEO that a name lookup returns is also found under its own
    designation; with unique designations that lookup returns the same
    NEO. *)
Theorem found_by_name_found_by_designation h neos approaches_in k n :
  (forall m1 m2, m1 ∈ neos -> m2 ∈ neos ->
     designation (neo_at h m1) = designation (neo_at h m2) -> m1 = m2) ->
  let h' := fst (NEODatabase_init h neos approaches_in) in
  let db := snd (NEODatabase_init h neos approaches_in) in
  get_neo_by_name db k = Some n ->
  get_neo_by_designation db (designation (neo_at h' n)) = Some n.
Proof.
  intros Huniq h' db Hl. subst h' db.
  destruct (name_index_sound _ _ _ _ Hl) as (Hin & _ & _).
  destruct (init_neo_attrs h neos approaches_in n) as [-> _].
  by apply designation_index_unique.
Qed.

Lemma found_by_name_found_by_designation_witness :
  get_neo_by_name (snd sample_db) (Some "Eros") = Some 0
  /\ get_neo_by_designation (snd sample_db) (Some "433") = Some 0.
Proof.
  split; [reflexivity|].
  apply (found_by_name_found_by_designation sample_heap [0] [0; 1] (Some "Eros") 0).
  - intros m1 m2 H1 H2 _. apply list_elem_of_singleton in H1, H2. congruence.
  - reflexivity.
Defined.

(** ** What the linking loop builds *)

(** X5. With unique designations, construction extends the list of a NEO
    of the collection by exactly the approaches of the input that carry
    its designation, in the order of the input. *)
Theorem construction_appends_in_input_order h neos approaches_in n :
  (forall m1 m2, m1 ∈ neos -> m2 ∈ neos ->
     designation (neo_at h m1) = designation (neo_at h m2) -> m1 = m2) ->
  n ∈ neos ->
  approaches (neo_at (fst (NEODatabase_init h neos approaches_in)) n)
  = approaches (neo_at h n)
    ++ filter (fun a => _designation (ca_at h a) = designation (neo_at h n))
              approaches_in.
Proof.
  intros Huniq Hn. simpl. rewrite link_all_approaches. f_equal.
  apply list_filter_iff. intros a. split.
  - intros Hl. by destruct (designation_index_sound _ _ _ _ Hl) as [_ ->].
  - intros ->. by apply designation_index_unique.
Qed.

Lemma construction_appends_in_input_order_witness :
  approaches (neo_at (fst (NEODatabase_init eros_heap [0; 1] [2; 0; 1])) 0)
  = [2; 0; 1].
Proof.
  apply (construction_appends_in_input_order eros_heap [0; 1] [2; 0; 1] 0).
  - intros m1 m2 H1 H2.
    apply elem_of_cons in H1 as [->|H1];
      [|apply list_elem_of_singleton in H1 as ->];
    (apply elem_of_cons in H2 as [->|H2];
      [|apply list_elem_of_singleton in H2 as ->]);
    simpl; intros; congruence.
  - constructor.
Defined.

(** X6. When the NEO lists are empty and the approaches of the input are
    unlinked beforehand, as the loaders leave them, the two directions of
    the link agree after construction: an approach is in the list of a
    NEO exactly when it is an approach of the input whose [neo] is that
    NEO. *)
Theorem links_agree_in_both_directions h neos approaches_in a n :
  (forall m, approaches (neo_at h m) = []) ->
  (forall c, c ∈ approaches_in -> neo (ca_at h c) = None) ->
  let h' := fst (NEODatabase_init h neos approaches_in) in
  a ∈ approaches (neo_at h' n)
  <-> a ∈ approaches_in /\ neo (ca_at h' a) = Some n.
Proof.
  intros Hempty Hunlinked h'. subst h'. simpl.
  rewrite link_all_approaches, Hempty, app_nil_l, list_elem_of_filter.
  rewrite link_all_neo. split.
  - intros [Hres Hin]. split; [done|]. by rewrite decide_True, Hres.
  - intros [Hin Hneo]. split; [|done]. rewrite decide_True in Hneo by done.
    destruct (designation_index h neos !! _) as [m|]; [done|].
    rewrite Hunlinked in Hneo; done.
Qed.

Lemma links_agree_in_both_directions_witness :
  0 ∈ approaches (neo_at (fst sample_db) 0)
  <-> 0 ∈ [0; 1] /\ neo (ca_at (fst sample_db) 0) = Some 0.
Proof.
  apply (links_agree_in_both_directions sample_heap [0] [0; 1] 0 0).
  - by intros [|m].
  - by intros [|c] _.
Defined.

(** X7. The back-reference that construction leaves on an approach which
    was unlinked beforehand points into the NEO collection, at a NEO with
    the designation of the approach; and only approaches of the input
    receive one. *)
Theorem back_reference_is_sound h neos approaches_in a n :
  neo (ca_at h a) = None ->
  let h' := fst (NEODatabase_init h neos approaches_in) in
  neo (ca_at h' a) = Some n ->
  a ∈ approaches_in /\ n ∈ neos
  /\ designation (neo_at h' n) = _designation (ca_at h' a).
Proof.
  intros Hunlinked h'. subst h'. simpl.
  rewrite link_all_neo, link_all_ca_designation.
  destruct (link_all_neo_attrs (designation_index h neos) approaches_in h n)
    as [-> _].
  case_decide as Hin; [|congruence].
  destruct (designation_index h neos !! _) as [m|] eqn:Hl; [|congruence].
  intros [= ->].
  by destruct (designation_index_sound _ _ _ _ Hl) as [? ?].
Qed.

Lemma back_reference_is_sound_witness :
  neo (ca_at sample_heap 0) = None
  /\ 0 ∈ [0; 1] /\ 0 ∈ [0]
  /\ designation (neo_at (fst sample_db) 0) = _designation (ca_at (fst sample_db) 0).
Proof.
  split; [reflexivity|].
  apply (back_reference_is_sound sample_heap [0] [0; 1] 0 0); reflexivity.
Defined.

(** X8. Construction writes nothing but [neo] on approaches and nothing
    but [approaches] on NEOs: designation, time, distance and velocity of
    every approach and designation, name, diameter and hazard flag of
    every NEO stay as they were. An approach outside the input and a NEO
    outside the collection are left entirely as they were. *)
Theorem construction_frame h neos approaches_in :
  let h' := fst (NEODatabase_init h neos approaches_in) in
  (forall a, _designation (ca_at h' a) = _designation (ca_at h a)
             /\ time (ca_at h' a) = time (ca_at h a)
             /\ distance (ca_at h' a) = distance (ca_at h a)
             /\ velocity (ca_at h' a) = velocity (ca_at h a))
  /\ (forall n, designation (neo_at h' n) = designation (neo_at h n)
                /\ name (neo_at h' n) = name (neo_at h n)
                /\ diameter (neo_at h' n) = diameter (neo_at h n)
                /\ hazardous (neo_at h' n) = hazardous (neo_at h n))
  /\ (forall a, a ∉ approaches_in -> ca_at h' a = ca_at h a)
  /\ (forall n, n ∉ neos -> neo_at h' n = neo_at h n).
Proof.
  intros h'. subst h'. simpl. split; [|split; [|split]].
  - intros a. split; [apply link_all_ca_designation | apply link_all_ca_attrs].
  - intros n. apply link_all_neo_attrs.
  - intros a Ha. by apply link_all_ca_untouched.
  - intros n Hn. apply link_all_neo_untouched. intros a _ Hl.
    by destruct (designation_index_sound _ _ _ _ Hl) as [? _].
Qed.

Lemma construction_frame_witness :
  ca_at (fst sample_db) 2 = ca_at sample_heap 2
  /\ neo_at (fst sample_db) 1 = neo_at sample_heap 1.
Proof.
  destruct (construction_frame sample_heap [0] [0; 1]) as (_ & _ & Hca & Hneo).
  split.
  - apply Hca. intros H. apply elem_of_cons in H as [H|H]; [done|].
    by apply list_elem_of_singleton in H.
  - apply Hneo. intros H. by apply list_elem_of_singleton in H.
Defined.

(** X9. An approach object that occurs several times in the input is
    appended once per occurrence: with unique designations, the list of
    the NEO it resolves to gains as many copies as the input holds. *)
Theorem repeated_approach_is_appended_per_occurrence h neos approaches_in a n :
  (forall m1 m2, m1 ∈ neos -> m2 ∈ neos ->
     designation (neo_at h m1) = designation (neo_at h m2) -> m1 = m2) ->
  n ∈ neos ->
  _designation (ca_at h a) = designation (neo_at h n) ->
  let h' := fst (NEODatabase_init h neos approaches_in) in
  count_occ Nat.eq_dec (approaches (neo_at h' n)) a
  = count_occ Nat.eq_dec (approaches (neo_at h n)) a
    + count_occ Nat.eq_dec approaches_in a.
Proof.
  intros Huniq Hn Hdes h'. subst h'. simpl.
  rewrite link_all_approaches, count_occ_app, count_occ_filter.
  rewrite decide_True; [done|].
  rewrite Hdes. by apply designation_index_unique.
Qed.

Lemma repeated_approach_is_appended_per_occurrence_witness :
  count_occ Nat.eq_dec
    (approaches (neo_at (fst (NEODatabase_init sample_heap [0] [0; 1; 0])) 0)) 0
  = 0 + 2.
Proof.
  apply (repeated_approach_is_appended_per_occurrence sample_heap [0] [0; 1; 0] 0 0).
  - intros m1 m2 H1 H2 _. apply list_elem_of_singleton in H1, H2. congruence.
  - constructor.
  - reflexivity.
Defined.

(** X10. Building a second database from the same objects links them a
    second time: the list of every NEO that was empty before the first
    construction holds each of its approaches twice afterwards, as two
    copies of the list the first construction left. *)
Theorem second_construction_links_again h neos approaches_in n :
  approaches (neo_at h n) = [] ->
  let h1 := fst (NEODatabase_init h neos approaches_in) in
  let h2 := fst (NEODatabase_init h1 neos approaches_in) in
  approaches (neo_at h2 n) = approaches (neo_at h1 n) ++ approaches (neo_at h1 n).
Proof.
  intros Hempty h1 h2. subst h2 h1. simpl.
  rewrite (designation_index_ext
             (foldl (link_approach (designation_index h neos)) h approaches_in)
             h neos).
  2:{ intros m. apply link_all_neo_attrs. }
  rewrite (link_all_approaches _ _ (foldl _ h approaches_in)).
  f_equal. rewrite link_all_approaches, Hempty, app_nil_l.
  apply list_filter_iff. intros a. by rewrite link_all_ca_designation.
Qed.

Lemma second_construction_links_again_witness :
  approaches (neo_at (fst (NEODatabase_init (fst sample_db) [0] [0; 1])) 0)
  = [0] ++ [0].
Proof.
  apply (second_construction_links_again sample_heap [0] [0; 1] 0). reflexivity.
Defined.

(** ** Consuming a query in parts *)

Lemma collect_take fuel g :
  gen_pos g <= List.length (gen_seq g) ->
  fst (collect fuel g) = take fuel (drop (gen_pos g) (gen_seq g))
  /\ gen_seq (snd (collect fuel g)) = gen_seq g
  /\ gen_pos (snd (collect fuel g))
     = Nat.min (gen_pos g + fuel) (List.length (gen_seq g)).
Proof.
  revert g. induction fuel as [|k IH]; intros g Hpos.
  - simpl. rewrite take_0. split; [done|]. split; [done|lia].
  - cbn [collect].
    destruct (gen_seq g !! gen_pos g) as [a|] eqn:Hnth.
    + rewrite (next_yield _ _ Hnth).
      pose proof (lookup_lt_Some _ _ _ Hnth) as Hlt.
      set (g' := {| gen_filters := gen_filters g; gen_seq := gen_seq g;
                    gen_pos := S (gen_pos g) |}).
      destruct (IH g') as (Hl & Hseq & Hp); [simpl; lia|].
      destruct (collect k g') as [l g'']. subst g'.
      cbn [fst snd gen_pos gen_seq] in *.
      rewrite Hl, Hseq, Hp, (drop_S _ _ _ Hnth). cbn [take].
      split; [done|]. split; [done|]. f_equal. lia.
    + rewrite (next_stop _ Hnth). simpl.
      apply lookup_ge_None in Hnth.
      rewrite drop_ge by done. split; [done|]. split; [done|lia].
Qed.

Lemma to_list_rest g :
  gen_pos g <= List.length (gen_seq g) ->
  fst (to_list g) = drop (gen_pos g) (gen_seq g)
  /\ gen_seq (snd (to_list g)) = gen_seq g
  /\ gen_pos (snd (to_list g)) = List.length (gen_seq g).
Proof.
  intros Hpos. unfold to_list.
  destruct (collect_drop (S (List.length (gen_seq g) - gen_pos g)) g)
    as (Hl & _ & _); [lia|].
  destruct (collect_take (S (List.length (gen_seq g) - gen_pos g)) g Hpos)
    as (_ & Hseq & Hp).
  split; [done|]. split; [done|]. rewrite Hp. lia.
Qed.

(** X11. A query can be consumed in parts: [k] calls of [next] on a new
    generator yield the first [k] approaches of the collection (all of
    them when there are fewer), draining the generator afterwards yields
    exactly the rest, and a generator that has been drained yields
    nothing when drained again. *)
Theorem query_consumed_in_parts db filters k :
  let g := query db filters in
  fst (collect k g) = take k (_approaches db)
  /\ fst (to_list (snd (collect k g))) = drop k (_approaches db)
  /\ fst (to_list (snd (to_list g))) = [].
Proof.
  intros g.
  destruct (collect_take k g) as (Hl & Hseq & Hp);
    [subst g; cbn [query gen_pos]; lia|].
  split; [by rewrite Hl|]. split.
  - destruct (to_list_rest (snd (collect k g))) as (-> & _ & _);
      [rewrite Hseq, Hp; lia|].
    rewrite Hseq, Hp. subst g. cbn [query gen_pos gen_seq].
    destruct (decide (k <= List.length (_approaches db))).
    + by rewrite Nat.min_l by lia.
    + rewrite Nat.min_r by lia. by rewrite !drop_ge by lia.
  - destruct (to_list_rest g) as (_ & Hseq' & Hp');
      [subst g; cbn [query gen_pos]; lia|].
    destruct (to_list_rest (snd (to_list g))) as (-> & _ & _);
      [rewrite Hseq', Hp'; lia|].
    rewrite Hseq', Hp'. by apply drop_ge.
Qed.

(** ** Display and export *)





(** X13. A NEO constructed without a diameter, or with a falsy one such
    as zero, is displayed by the short sentence that names no diameter;
    the number formatter is not consulted. *)
Theorem str_of_neo_without_diameter format_f info :
  truthy (kw_get (neo_kw_diameter info)) = false ->
  NearEarthObject_str format_f (NearEarthObject_init info)
  = Done ("NEO " ++ fullname (NearEarthObject_init info) ++ " "
          ++ (if truthy (kw_get (neo_kw_hazardous info)) then "is" else "is not")
          ++ " potentially hazardous.")%string.
Proof.
  intros Hf. unfold NearEarthObject_str, NearEarthObject_init. simpl.
  by rewrite Hf.
Qed.

Lemma str_of_neo_without_diameter_witness :
  NearEarthObject_str (fun _ _ => Throw OverflowError) unnamed_neo
  = Done "NEO 2020 AB is not potentially hazardous.".
Proof.
  apply (str_of_neo_without_diameter (fun _ _ => Throw OverflowError)
           {| neo_kw_designation := Some "2020 AB"; neo_kw_name := None;
              neo_kw_diameter := None;
              neo_kw_hazardous := Some (PyBool false) |}).
  reflexivity.
Defined.

(** X14. Displaying an approach that construction could not link fails:
    when no NEO of the collection has the designation of an approach that
    was unlinked beforehand, [str] of it raises, and the exception is the
    [AttributeError] of [self.neo.fullname] whenever its time is absent
    or the date formatter returns. *)
Theorem str_of_unmatched_approach_raises format_f dts h neos approaches_in a :
  (forall n, n ∈ neos -> designation (neo_at h n) <> _designation (ca_at h a)) ->
  neo (ca_at h a) = None ->
  let h' := fst (NEODatabase_init h neos approaches_in) in
  (exists e, CloseApproach_str format_f dts h' (ca_at h' a) = Throw e)
  /\ (truthy (time (ca_at h a)) = false ->
      CloseApproach_str format_f dts h' (ca_at h' a) = Throw AttributeError)
  /\ (forall s, dts (time (ca_at h a)) = Done s ->
      CloseApproach_str format_f dts h' (ca_at h' a) = Throw AttributeError).
Proof.
  intros Hunknown Hunlinked h'. subst h'. simpl.
  assert (Hidx : designation_index h neos !! _designation (ca_at h a) = None).
  { destruct (designation_index h neos !! _) as [n|] eqn:Hl; [|done].
    destruct (designation_index_sound _ _ _ _ Hl) as [Hin Hd].
    by destruct (Hunknown n Hin). }
  assert (Hneo : neo (ca_at (foldl (link_approach (designation_index h neos))
                                   h approaches_in) a) = None).
  { rewrite link_all_neo, Hidx. by case_decide. }
  destruct (link_all_ca_attrs (designation_index h neos) approaches_in h a)
    as (Htime & _ & _).
  unfold CloseApproach_str, time_str. rewrite Hneo, Htime.
  split; [|split].
  - destruct (truthy (time (ca_at h a))); simpl; [|by eexists].
    destruct (dts (time (ca_at h a))); simpl; by eexists.
  - by intros ->.
  - intros s Hs. destruct (truthy (time (ca_at h a))); simpl; [|done].
    by rewrite Hs.
Qed.

Lemma str_of_unmatched_approach_raises_witness :
  CloseApproach_str (fun _ _ => Done "0.00") (fun _ => Done "2020-01-02 00:00")
    (fst sample_db) (ca_at (fst sample_db) 1) = Throw AttributeError.
Proof.
  refine (proj2 (proj2 (str_of_unmatched_approach_raises
            (fun _ _ => Done "0.00") (fun _ => Done "2020-01-02 00:00")
            sample_heap [0] [0; 1] 1 _ _)) "2020-01-02 00:00" _).
  - intros n Hn. apply list_elem_of_singleton in Hn as ->. discriminate.
  - reflexivity.
  - reflexivity.
Defined.

(** X15. What [serialize] returns for an approach is determined by its
    time, distance and velocity: it carries neither the designation nor
    the linked NEO. Hence construction of a database changes the
    serialized form of no approach, and of no NEO either. *)
Theorem serialized_form_ignores_links dts h neos approaches_in :
  let h' := fst (NEODatabase_init h neos approaches_in) in
  (forall c1 c2, time c1 = time c2 -> distance c1 = distance c2 ->
                 velocity c1 = velocity c2 ->
                 CloseApproach_serialize dts c1 = CloseApproach_serialize dts c2)
  /\ (forall a, CloseApproach_serialize dts (ca_at h' a)
                = CloseApproach_serialize dts (ca_at h a))
  /\ (forall n, NearEarthObject_serialize (neo_at h' n)
                = NearEarthObject_serialize (neo_at h n)).
Proof.
  intros h'. subst h'. simpl.
  assert (Hsame : forall c1 c2, time c1 = time c2 -> distance c1 = distance c2 ->
            velocity c1 = velocity c2 ->
            CloseApproach_serialize dts c1 = CloseApproach_serialize dts c2).
  { intros c1 c2 Ht Hd Hv. unfold CloseApproach_serialize.
    by rewrite Ht, Hd, Hv. }
  split; [exact Hsame|]. split.
  - intros a.
    destruct (link_all_ca_attrs (designation_index h neos) approaches_in h a)
      as (Ht & Hd & Hv).
    by apply Hsame.
  - intros n. unfold NearEarthObject_serialize.
    destruct (link_all_neo_attrs (designation_index h neos) approaches_in h n)
      as (-> & -> & -> & ->).
    done.
Qed.

Lemma serialized_form_ignores_links_witness :
  CloseApproach_serialize (fun _ => Done "2020-01-01 00:00")
    (ca_at (fst sample_db) 0)
  = CloseApproach_serialize (fun _ => Done "2020-01-01 00:00")
      (ca_at sample_heap 0).
Proof.
  apply (proj1 (proj2 (serialized_form_ignores_links
                         (fun _ => Done "2020-01-01 00:00")
                         sample_heap [0] [0; 1]))).
Defined.

(** X16. An approach constructed without a time is displayed with the
    words for an unknown time, whereas [serialize] hands the absent time
    to the date formatter without a test and fails with whatever that
    raises. *)
Theorem approach_without_time cd dts info c e :
  ca_kw_time info = None ->
  CloseApproach_init cd info = Ok c ->
  dts PyNone = Throw e ->
  time c = PyNone
  /\ time_str dts c = Done "an unknown time"
  /\ CloseApproach_serialize dts c = Throw e.
Proof.
  intros Hnone Hinit Hdts. unfold CloseApproach_init in Hinit.
  rewrite Hnone in Hinit. simpl in Hinit.
  destruct (isinstance_float (kw_get_default (ca_kw_distance info) nan));
    simpl in Hinit; [|done].
  destruct (isinstance_float (kw_get_default (ca_kw_velocity info) nan));
    simpl in Hinit; [|done].
  injection Hinit as <-.
  unfold time_str, CloseApproach_serialize. simpl. by rewrite Hdts.
Qed.

Lemma approach_without_time_witness :
  time_str (fun v => match v with PyDatetime _ => Done "2020-01-01 00:00"
                                | _ => Throw AttributeError end)
    {| _designation := Some "433"; time := PyNone; distance := f_0_15;
       velocity := nan; neo := None |} = Done "an unknown time"
  /\ CloseApproach_serialize
       (fun v => match v with PyDatetime _ => Done "2020-01-01 00:00"
                            | _ => Throw AttributeError end)
       {| _designation := Some "433"; time := PyNone; distance := f_0_15;
          velocity := nan; neo := None |} = Throw AttributeError.
Proof.
  apply (approach_without_time parse_any
           (fun v => match v with PyDatetime _ => Done "2020-01-01 00:00"
                                | _ => Throw AttributeError end)
           {| ca_kw_designation := Some "433"; ca_kw_time := None;
              ca_kw_distance := Some f_0_15; ca_kw_velocity := None;
              ca_kw_neo := None |}); reflexivity.
Defined.

(** * Properties of the loaders *)

Section ExtractFacts.

Context (float_of_str : string -> spec_float + string).
Context (cd_to_datetime : pyval -> result pyval).

(** What the body of the [try] in [load_neos] can raise, and what it
    returns. *)
Lemma neo_of_row_raises row e :
  neo_of_row float_of_str row = Throw e ->
  (exists k, e = KeyError k) \/ (exists msg, e = Builtin (ValueError msg)).
Proof.
  unfold neo_of_row, getitem, py_float.
  destruct (row !! "pdes") as [pdes|]; simpl; [|intros [= <-]; eauto].
  destruct (row !! "name") as [nm|]; simpl; [|intros [= <-]; eauto].
  destruct (row !! "diameter") as [dia|]; simpl; [|intros [= <-]; eauto].
  destruct (truthy_str dia) eqn:Hd; simpl.
  - destruct dia as [s|]; [|done].
    destruct (float_of_str s) as [f|msg]; simpl; [|intros [= <-]; eauto].
    destruct (row !! "pha") as [pha|]; simpl; [done|intros [= <-]; eauto].
  - destruct (row !! "pha") as [pha|]; simpl; [done|intros [= <-]; eauto].
Qed.

Lemma neo_of_row_done row o :
  neo_of_row float_of_str row = Done o ->
  row !! "pdes" = Some (designation o)
  /\ approaches o = []
  /\ name o <> Some ""
  /\ (exists nm, row !! "name" = Some nm
                 /\ name o = if truthy_str nm then nm else None)
  /\ (exists pha, row !! "pha" = Some pha
                  /\ hazardous o
                     = PyBool (negb (bool_decide (pha ∈ [Some ""; Some "N"]))))
  /\ isinstance_float (diameter o) = true
  /\ truthy (diameter o) = true.
Proof.
  unfold neo_of_row, getitem, py_float.
  destruct (row !! "pdes") as [pdes|]; simpl; [|done].
  destruct (row !! "name") as [nm|]; simpl; [|done].
  destruct (row !! "diameter") as [dia|]; simpl; [|done].
  assert (Hname : (if truthy_str nm then nm else None) <> Some "").
  { destruct nm as [s|]; simpl; [|done].
    destruct (String.eqb s "") eqn:Hs; simpl; [done|].
    intros [= ->]. by rewrite String.eqb_refl in Hs. }
  destruct (truthy_str dia) eqn:Hd; simpl.
  - destruct dia as [s|]; [|done].
    destruct (float_of_str s) as [f|msg]; simpl; [|done].
    destruct (row !! "pha") as [pha|]; simpl; [|done].
    intros [= <-]. simpl.
    repeat (split; [by eauto|]). by destruct f.
  - destruct (row !! "pha") as [pha|]; simpl; [|done].
    intros [= <-]. simpl. repeat (split; [by eauto|]). done.
Qed.

Lemma load_neos_from_omap rows acc :
  load_neos_from float_of_str rows acc
  = Done (acc ++ omap (fun row => match neo_of_row float_of_str row with
                                   | Done o => Some o
                                   | Throw _ => None
                                   end) rows).
Proof.
  revert acc. induction rows as [|row rows IH]; intros acc; simpl.
  - by rewrite app_nil_r.
  - destruct (neo_of_row float_of_str row) as [o|e] eqn:Hrow.
    + by rewrite IH, <- app_assoc.
    + destruct (neo_of_row_raises _ _ Hrow) as [[k ->]|[msg ->]]; apply IH.
Qed.

(** The body of the [try] in [load_approaches]. *)
Lemma approach_of_row_done row c :
  approach_of_row float_of_str cd_to_datetime row = Done c ->
  row !! 0 = Some (_designation c)
  /\ neo c = None
  /\ isinstance_float (distance c) = true
  /\ isinstance_float (velocity c) = true
  /\ (truthy (time c) = true -> isinstance_datetime (time c) = true).
Proof.
  unfold approach_of_row, getindex, py_float.
  destruct (row !! 0) as [des|]; simpl; [|done].
  destruct (row !! 3) as [t|]; simpl; [|done].
  destruct (row !! 4) as [[s4|]|]; simpl; try done.
  destruct (float_of_str s4) as [f4|]; simpl; [|done].
  destruct (row !! 7) as [[s7|]|]; simpl; try done.
  destruct (float_of_str s7) as [f7|]; simpl; [|done].
  unfold CloseApproach_init. simpl.
  destruct (truthy (py_of_str t)) eqn:Ht; simpl.
  - destruct (cd_to_datetime (py_of_str t)) as [t1|e]; simpl; [|done].
    destruct (isinstance_datetime t1) eqn:Hdt; simpl; [|done].
    intros [= <-]. simpl. by repeat split.
  - intros [= <-]. simpl. repeat split; try done. congruence.
Qed.

Lemma load_approaches_from_app before rest acc :
  load_approaches_from float_of_str cd_to_datetime (before ++ rest) acc
  = match load_approaches_from float_of_str cd_to_datetime before acc with
    | Done out => load_approaches_from float_of_str cd_to_datetime rest out
    | Throw e => Throw e
    end.
Proof.
  revert acc. induction before as [|row before IH]; intros acc; simpl; [done|].
  destruct (approach_of_row float_of_str cd_to_datetime row) as [c|e]; [apply IH|].
  destruct e as [[| |]| | | |]; try done; apply IH.
Qed.

Lemma load_approaches_from_done rows acc out :
  load_approaches_from float_of_str cd_to_datetime rows acc = Done out ->
  out = acc ++ omap (fun row =>
                       match approach_of_row float_of_str cd_to_datetime row with
                       | Done c => Some c
                       | Throw _ => None
                       end) rows.
Proof.
  revert acc. induction rows as [|row rows IH]; intros acc; simpl.
  - intros [= <-]. by rewrite app_nil_r.
  - destruct (approach_of_row float_of_str cd_to_datetime row) as [c|e].
    + intros H. rewrite (IH _ H). by rewrite <- app_assoc.
    + destruct e as [[| |]| | | |]; try done; apply IH.
Qed.

End ExtractFacts.

Lemma loaded_neo_facts fos rows neos o :
  load_neos fos rows = Done neos -> o ∈ neos ->
  exists row, row ∈ rows /\ neo_of_row fos row = Done o.
Proof.
  unfold load_neos. rewrite load_neos_from_omap. intros [= <-] Hin.
  simpl in Hin. apply list_elem_of_omap in Hin as (row & Hrow & Hacc).
  exists row. split; [done|].
  destruct (neo_of_row fos row); congruence.
Qed.

Lemma omap_length_le {A B} (f : A -> option B) l :
  List.length (omap f l) <= List.length l.
Proof.
  induction l as [|x l IH]; [done|].
  change (omap f (x :: l)) with (match f x with Some y => y :: omap f l
                                 | None => omap f l end).
  destruct (f x); simpl; lia.
Qed.

Lemma store_of_neo neos cas j o :
  neos !! j = Some o -> neo_at (store_of neos cas) j = o.
Proof. intros H. unfold store_of. simpl. by rewrite H. Qed.

Lemma store_of_ca neos cas i c :
  cas !! i = Some c -> ca_at (store_of neos cas) i = c.
Proof. intros H. unfold store_of. simpl. by rewrite H. Qed.

(** ** [load_neos] *)

(** X17. [load_neos] never raises: it returns, in the order of the file,
    the NEOs of exactly those rows on which the body of its [try]
    succeeds, so never more NEOs than rows; loading the rows of one list
    followed by those of another gives the NEOs of the first followed by
    those of the second. *)
Theorem load_neos_keeps_good_rows_in_order fos rows rows' :
  load_neos fos rows
  = Done (omap (fun row => match neo_of_row fos row with
                           | Done o => Some o
                           | Throw _ => None
                           end) rows)
  /\ (exists neos, load_neos fos rows = Done neos
                   /\ List.length neos <= List.length rows)
  /\ load_neos fos (rows ++ rows')
     = (neos <-? load_neos fos rows;
        neos' <-? load_neos fos rows';
        Done (neos ++ neos')).
Proof.
  unfold load_neos. rewrite !load_neos_from_omap, !app_nil_l.
  split; [done|]. split.
  - eexists. split; [done|]. apply omap_length_le.
  - simpl. by rewrite omap_app.
Qed.

(** X18. A row of the NEO file yields a NEO exactly when it has the four
    columns [pdes], [name], [diameter] and [pha] and its diameter is
    blank or converts to a float; every other row is left out. *)
Theorem neo_row_accepted_iff fos row :
  (exists o, neo_of_row fos row = Done o)
  <-> is_Some (row !! "pdes") /\ is_Some (row !! "name")
      /\ is_Some (row !! "pha")
      /\ exists dia, row !! "diameter" = Some dia
                     /\ (truthy_str dia = false
                         \/ exists s f, dia = Some s /\ fos s = inl f).
Proof.
  unfold neo_of_row, getitem, py_float. split.
  - intros [o Ho]. revert Ho.
    destruct (row !! "pdes") as [pdes|]; simpl; [|done].
    destruct (row !! "name") as [nm|]; simpl; [|done].
    destruct (row !! "diameter") as [dia|]; simpl; [|done].
    destruct (truthy_str dia) eqn:Hd; simpl.
    + destruct dia as [s|]; [|done].
      destruct (fos s) as [f|msg] eqn:Hf; simpl; [|done].
      destruct (row !! "pha") as [pha|]; simpl; [|done].
      intros _. repeat (split; [by eexists|]). exists (Some s). split; [done|].
      right. by exists s, f.
    + destruct (row !! "pha") as [pha|]; simpl; [|done].
      intros _. repeat (split; [by eexists|]). exists dia. split; [done|].
      by left.
  - intros ([pdes ->] & [nm ->] & [pha ->] & dia & -> & Hdia). simpl.
    destruct Hdia as [Hfalsy|(s & f & -> & Hf)].
    + rewrite Hfalsy. simpl. by eexists.
    + destruct (truthy_str (Some s)); simpl; [|by eexists].
      rewrite Hf. simpl. by eexists.
Qed.



(** ** [load_approaches] *)

(** X20. When [load_approaches] returns, every approach it returns comes
    from an entry of the file with the entry's first field as
    designation, is not linked to a NEO, has floats as distance and
    velocity, and has a time that is either falsy (absent or blank in the
    file) or a datetime; and there are no more approaches than entries. *)
Theorem loaded_approaches_are_well_formed fos cd rows cas c :
  load_approaches fos cd rows = Done cas ->
  c ∈ cas ->
  (exists row, row ∈ rows /\ row !! 0 = Some (_designation c))
  /\ neo c = None
  /\ isinstance_float (distance c) = true
  /\ isinstance_float (velocity c) = true
  /\ (truthy (time c) = true -> isinstance_datetime (time c) = true)
  /\ List.length cas <= List.length rows.
Proof.
  intros Hload Hin. apply load_approaches_from_done in Hload.
  simpl in Hload. subst cas.
  split; [|split; [|split; [|split; [|split]]]];
    try (apply list_elem_of_omap in Hin as (row & Hrow & Hacc);
         destruct (approach_of_row fos cd row) as [c'|] eqn:Hdone; [|done];
         injection Hacc as ->;
         destruct (approach_of_row_done _ _ _ _ Hdone)
           as (Hdes & Hneo & Hd & Hv & Ht)).
  - by exists row.
  - done.
  - done.
  - done.
  - done.
  - apply omap_length_le.
Qed.

Lemma loaded_approaches_are_well_formed_witness :
  (exists cas, load_approaches sample_float_of_str parse_any
                 [approach_row_433; short_row; approach_row_999] = Done cas
               /\ List.length cas = 2)
  /\ neo approach_433 = None.
Proof.
  assert (Hload : load_approaches sample_float_of_str parse_any
                    [approach_row_433; short_row; approach_row_999]
                  = Done [approach_433;
                          {| _designation := Some "999";
                             time := PyDatetime 26297280;
                             distance := f_0_02; velocity := f_30_0;
                             neo := None |}]) by (by vm_compute).
  split; [by eexists|].
  eapply (loaded_approaches_are_well_formed _ _ _ _ approach_433 Hload).
  constructor.
Defined.

(** X21. A null distance, or a null velocity behind a distance that
    converts, makes [float] raise a [TypeError], which
    [except (IndexError, ValueError)] does not catch: when the entries
    before such an entry load, loading the file raises that [TypeError]
    and returns no approach at all, whatever entries follow. *)
Theorem null_number_aborts_load fos cd before row after cas0 :
  load_approaches fos cd before = Done cas0 ->
  row !! 4 = Some None
  \/ (exists s f, row !! 4 = Some (Some s) /\ fos s = inl f
                  /\ row !! 7 = Some None) ->
  exists msg, load_approaches fos cd (before ++ row :: after)
              = Throw (Builtin (TypeError msg)).
Proof.
  intros Hbefore Hnull. unfold load_approaches in *.
  rewrite load_approaches_from_app, Hbefore. cbn [load_approaches_from].
  assert (Hrow : exists msg, approach_of_row fos cd row
                             = Throw (Builtin (TypeError msg))).
  { unfold approach_of_row, getindex, py_float.
    assert (H0 : is_Some (row !! 0)).
    { apply lookup_lt_is_Some.
      destruct Hnull as [H|(s & f & H & _)];
        apply lookup_lt_Some in H; lia. }
    assert (H3 : is_Some (row !! 3)).
    { apply lookup_lt_is_Some.
      destruct Hnull as [H|(s & f & H & _)];
        apply lookup_lt_Some in H; lia. }
    destruct H0 as [des ->], H3 as [t ->]. simpl.
    destruct Hnull as [->|(s & f & -> & Hf & ->)]; simpl.
    - by eexists.
    - rewrite Hf. simpl. by eexists. }
  destruct Hrow as [msg ->]. by exists msg.
Qed.

Lemma null_number_aborts_load_witness :
  load_approaches sample_float_of_str parse_any [approach_row_433]
  = Done [approach_433]
  /\ exists msg,
       load_approaches sample_float_of_str parse_any
         ([approach_row_433] ++ null_distance_row :: [approach_row_999])
       = Throw (Builtin (TypeError msg)).
Proof.
  assert (Hload : load_approaches sample_float_of_str parse_any
                    [approach_row_433] = Done [approach_433])
    by (by vm_compute).
  split; [exact Hload|].
  apply (null_number_aborts_load _ _ _ null_distance_row _ _ Hload).
  by left.
Defined.

(** X22. An entry with fewer than five fields, or whose distance is a
    string that does not convert, is skipped: loading gives the same
    result, approaches or exception, as loading the file without that
    entry. *)
Theorem short_or_unparsable_entry_is_skipped fos cd before row after :
  List.length row <= 4
  \/ (exists s msg, row !! 4 = Some (Some s) /\ fos s = inr msg) ->
  load_approaches fos cd (before ++ row :: after)
  = load_approaches fos cd (before ++ after).
Proof.
  intros Hbad. unfold load_approaches. rewrite !load_approaches_from_app.
  destruct (load_approaches_from fos cd before []) as [out|e]; [|done].
  cbn [load_approaches_from].
  assert (Hrow : approach_of_row fos cd row = Throw IndexError
                 \/ exists msg, approach_of_row fos cd row
                                = Throw (Builtin (ValueError msg))).
  { unfold approach_of_row, getindex, py_float.
    destruct Hbad as [Hshort|(s & msg & H4 & Hs)].
    - left. destruct (row !! 0) as [des|]; simpl; [|done].
      destruct (row !! 3) as [t|]; simpl; [|done].
      by rewrite (lookup_ge_None_2 row 4) by lia.
    - right.
      assert (H0 : is_Some (row !! 0))
        by (apply lookup_lt_is_Some; apply lookup_lt_Some in H4; lia).
      assert (H3 : is_Some (row !! 3))
        by (apply lookup_lt_is_Some; apply lookup_lt_Some in H4; lia).
      destruct H0 as [des ->], H3 as [t ->]. simpl.
      rewrite H4. simpl. rewrite Hs. simpl. by eexists. }
  by destruct Hrow as [->|[msg ->]].
Qed.

Lemma short_or_unparsable_entry_is_skipped_witness :
  load_approaches sample_float_of_str parse_any
    ([approach_row_433] ++ short_row :: [approach_row_999])
  = load_approaches sample_float_of_str parse_any
      ([approach_row_433] ++ [approach_row_999]).
Proof.
  apply (short_or_unparsable_entry_is_skipped _ _ _ short_row).
  left. simpl. lia.
Defined.

(** ** From the files to the database *)

Lemma seq_ref_lookup {A} (l : list A) r :
  r ∈ seq 0 (List.length l) -> exists x, l !! r = Some x.
Proof.
  intros Hr. apply elem_of_seq in Hr.
  apply lookup_lt_is_Some. lia.
Qed.

Lemma lookup_seq_ref {A} (l : list A) r x :
  l !! r = Some x -> r ∈ seq 0 (List.length l).
Proof.
  intros Hr. apply lookup_lt_Some in Hr. apply elem_of_seq. lia.
Qed.

(** X23. The collections that the loaders return meet what the linking
    loop relies on. When the loaded NEOs have unique designations and a
    database is built from the loaded objects, every loaded approach
    whose designation is that of a loaded NEO refers to that NEO and sits
    exactly once in its list, and every loaded approach whose designation
    no loaded NEO has stays without a NEO. *)
Theorem loaded_collections_are_linked fos cd rows entries neos cas i c :
  load_neos fos rows = Done neos ->
  load_approaches fos cd entries = Done cas ->
  (forall j1 j2 o1 o2, neos !! j1 = Some o1 -> neos !! j2 = Some o2 ->
     designation o1 = designation o2 -> j1 = j2) ->
  cas !! i = Some c ->
  let h' := fst (NEODatabase_init (store_of neos cas)
                   (seq 0 (List.length neos)) (seq 0 (List.length cas))) in
  (forall j o, neos !! j = Some o -> _designation c = designation o ->
     neo (ca_at h' i) = Some j
     /\ count_occ Nat.eq_dec (approaches (neo_at h' j)) i = 1)
  /\ ((forall o, o ∈ neos -> designation o <> _designation c) ->
      neo (ca_at h' i) = None).
Proof.
  intros Hneos Hcas Huniq Hi h'. subst h'. cbn [NEODatabase_init fst].
  set (h := store_of neos cas).
  assert (Hrefs : forall m1 m2, m1 ∈ seq 0 (List.length neos) ->
            m2 ∈ seq 0 (List.length neos) ->
            designation (neo_at h m1) = designation (neo_at h m2) -> m1 = m2).
  { intros m1 m2 [o1 H1]%seq_ref_lookup [o2 H2]%seq_ref_lookup.
    subst h. rewrite (store_of_neo _ _ _ _ H1), (store_of_neo _ _ _ _ H2).
    by apply Huniq. }
  assert (Hc : ca_at h i = c) by (by apply store_of_ca).
  assert (Hiin : i ∈ seq 0 (List.length cas)) by (by eapply lookup_seq_ref).
  split.
  - intros j o Hj Hdes.
    assert (Ho : neo_at h j = o) by (by apply store_of_neo).
    assert (Hidx : designation_index h (seq 0 (List.length neos))
                   !! _designation (ca_at h i) = Some j).
    { rewrite Hc, Hdes, <- Ho. apply designation_index_unique; [done|].
      by eapply lookup_seq_ref. }
    split.
    + by rewrite link_all_neo, decide_True, Hidx.
    + rewrite link_all_approaches, Ho.
      destruct (loaded_neo_facts _ _ _ _ Hneos (list_elem_of_lookup_2 _ _ _ Hj))
        as (row & _ & Hrow).
      destruct (neo_of_row_done _ _ _ Hrow) as (_ & -> & _).
      rewrite app_nil_l, count_occ_filter, decide_True by done.
      apply NoDup_count_occ'.
      * apply NoDup_ListNoDup, NoDup_seq.
      * by apply list_elem_of_In.
  - intros Hunknown.
    assert (Hidx : designation_index h (seq 0 (List.length neos))
                   !! _designation (ca_at h i) = None).
    { destruct (designation_index h _ !! _) as [m|] eqn:Hl; [|done].
      destruct (designation_index_sound _ _ _ _ Hl) as [Hm Hd].
      apply seq_ref_lookup in Hm as [o Ho].
      subst h. rewrite (store_of_neo _ _ _ _ Ho), Hc in Hd.
      destruct (Hunknown o (list_elem_of_lookup_2 _ _ _ Ho) Hd). }
    rewrite link_all_neo, Hidx, Hc.
    apply load_approaches_from_done in Hcas. simpl in Hcas.
    assert (Hin : c ∈ cas) by (by eapply list_elem_of_lookup_2).
    rewrite Hcas in Hin.
    apply list_elem_of_omap in Hin as (row & _ & Hacc).
    destruct (approach_of_row fos cd row) as [c'|] eqn:Hdone; [|done].
    injection Hacc as ->.
    destruct (approach_of_row_done _ _ _ _ Hdone) as (_ & -> & _).
    by case_decide.
Qed.

Lemma loaded_collections_are_linked_witness :
  neo (ca_at (fst (NEODatabase_init
                     (store_of [eros; unnamed_neo] [approach_433; approach_999])
                     (seq 0 2) (seq 0 2))) 0) = Some 0
  /\ count_occ Nat.eq_dec
       (approaches (neo_at (fst (NEODatabase_init
          (store_of [eros; unnamed_neo] [approach_433; approach_999])
          (seq 0 2) (seq 0 2))) 0)) 0 = 1.
Proof.
  assert (Hneos : load_neos sample_float_of_str
                    [eros_row; no_pha_row;
                     <["pha" := Some "N"]> unnamed_row]
                  = Done [eros; unnamed_neo]) by (by vm_compute).
  assert (Hcas : load_approaches sample_float_of_str
                   (fun v => match v with
                             | PyStr "2020-Jan-01 00:00" => Ok (PyDatetime 26297280)
                             | PyStr _ => Ok (PyDatetime 26298720)
                             | _ => Raise (TypeError "strptime")
                             end)
                   [approach_row_433; approach_row_999]
                 = Done [approach_433; approach_999]) by (by vm_compute).
  refine (proj1 (loaded_collections_are_linked _ _ _ _ _ _ 0 approach_433
                   Hneos Hcas _ eq_refl) 0 eros eq_refl eq_refl).
  intros [|[|j1]] [|[|j2]] o1 o2 [= <-] [= <-]; try done.
Defined.

(** X24. No NEO that [load_neos] returns has the empty string as name, so
    a database built from loaded objects whose names, where present, are
    unique finds every loaded NEO that has a name under that name. *)
Theorem loaded_neo_is_found_by_its_name fos rows neos cas j o s :
  load_neos fos rows = Done neos ->
  (forall j1 j2 o1 o2, neos !! j1 = Some o1 -> neos !! j2 = Some o2 ->
     name o1 <> None -> name o1 = name o2 -> j1 = j2) ->
  neos !! j = Some o ->
  name o = Some s ->
  get_neo_by_name
    (snd (NEODatabase_init (store_of neos cas)
            (seq 0 (List.length neos)) (seq 0 (List.length cas))))
    (Some s) = Some j.
Proof.
  intros Hneos Huniq Hj Hname. unfold get_neo_by_name. simpl.
  set (h := store_of neos cas).
  assert (Ho : neo_at h j = o) by (by apply store_of_neo).
  destruct (loaded_neo_facts _ _ _ _ Hneos (list_elem_of_lookup_2 _ _ _ Hj))
    as (row & _ & Hrow).
  destruct (neo_of_row_done _ _ _ Hrow) as (_ & _ & Hnonempty & _).
  assert (Ht : truthy_str (name (neo_at h j)) = true).
  { rewrite Ho, Hname. simpl. apply negb_true_iff, String.eqb_neq.
    intros ->. by rewrite Hname in Hnonempty. }
  destruct (name_index_complete h (seq 0 (List.length neos)) j) as [m Hm];
    [by eapply lookup_seq_ref | done |].
  rewrite Ho, Hname in Hm. rewrite Hm. f_equal.
  destruct (name_index_sound _ _ _ _ Hm) as (Hmin & Hmn & _).
  apply seq_ref_lookup in Hmin as [o' Ho'].
  subst h. rewrite (store_of_neo _ _ _ _ Ho') in Hmn.
  apply (Huniq m j o' o Ho' Hj); congruence.
Qed.

Lemma loaded_neo_is_found_by_its_name_witness :
  get_neo_by_name
    (snd (NEODatabase_init (store_of [eros; unnamed_neo] [approach_433])
            (seq 0 2) (seq 0 1)))
    (Some "Eros") = Some 0.
Proof.
  assert (Hneos : load_neos sample_float_of_str
                    [eros_row; no_pha_row;
                     <["pha" := Some "N"]> unnamed_row]
                  = Done [eros; unnamed_neo]) by (by vm_compute).
  refine (loaded_neo_is_found_by_its_name _ _ _ [approach_433] 0 eros "Eros"
            Hneos _ eq_refl eq_refl).
  intros [|[|j1]] [|[|j2]] o1 o2 [= <-] [= <-]; try done.
Defined.

(** ** Remaining edge cases *)

(** X25. [CloseApproach.__init__] converts a supplied time only when it
    is truthy: then the stored time is the datetime the parser returned,
    an exception of the parser leaves the constructor unchanged, and a
    parser result that is no datetime fails the assertion. A time that is
    missing, [None] or the empty string is stored as it is, the parser is
    not consulted. Designation and [neo] are stored as supplied. *)
Theorem CloseApproach_init_time cd info :
  (forall c, CloseApproach_init cd info = Ok c ->
     _designation c = ca_kw_designation info
     /\ neo c = ca_kw_neo info
     /\ (truthy (kw_get (ca_kw_time info)) = true ->
         cd (kw_get (ca_kw_time info)) = Ok (time c)
         /\ isinstance_datetime (time c) = true)
     /\ (truthy (kw_get (ca_kw_time info)) = false ->
         time c = kw_get (ca_kw_time info)))
  /\ (forall e, truthy (kw_get (ca_kw_time info)) = true ->
        cd (kw_get (ca_kw_time info)) = Raise e ->
        CloseApproach_init cd info = Raise e)
  /\ (forall t, truthy (kw_get (ca_kw_time info)) = true ->
        cd (kw_get (ca_kw_time info)) = Ok t ->
        isinstance_datetime t = false ->
        CloseApproach_init cd info
        = Raise (AssertionError "Date must be a datetime object")).
Proof.
  unfold CloseApproach_init.
  destruct (truthy (kw_get (ca_kw_time info))) eqn:Ht.
  - destruct (cd (kw_get (ca_kw_time info))) as [t1|e1] eqn:Hcd; simpl.
    + destruct (isinstance_datetime t1) eqn:Hdt; simpl.
      * split; [|split; [done|congruence]].
        intros c.
        destruct (isinstance_float (kw_get_default (ca_kw_distance info) nan));
          simpl; [|done].
        destruct (isinstance_float (kw_get_default (ca_kw_velocity info) nan));
          simpl; [|done].
        intros [= <-]. simpl. by repeat split.
      * split; [done|]. split; [done|]. by intros t _ [= <-] _.
    + split; [done|]. split; [|done]. by intros e _ [= <-].
  - simpl. split; [|split; [done|done]].
    intros c.
    destruct (isinstance_float (kw_get_default (ca_kw_distance info) nan));
      simpl; [|done].
    destruct (isinstance_float (kw_get_default (ca_kw_velocity info) nan));
      simpl; [|done].
    intros [= <-]. simpl. by repeat split.
Qed.

Lemma CloseApproach_init_time_witness :
  CloseApproach_init (fun _ => Ok (PyStr "2020-01-01"))
    {| ca_kw_designation := Some "433";
       ca_kw_time := Some (PyStr "2020-Jan-01 00:00");
       ca_kw_distance := Some f_0_15; ca_kw_velocity := Some f_5_2;
       ca_kw_neo := None |}
  = Raise (AssertionError "Date must be a datetime object")
  /\ CloseApproach_init parse_any
       {| ca_kw_designation := Some "433"; ca_kw_time := Some (PyInt 7);
          ca_kw_distance := Some f_0_15; ca_kw_velocity := Some f_5_2;
          ca_kw_neo := None |}
     = Raise (TypeError "strptime() argument 1 must be str").
Proof.
  split.
  - apply (proj2 (proj2 (CloseApproach_init_time (fun _ => Ok (PyStr "2020-01-01"))
             {| ca_kw_designation := Some "433";
                ca_kw_time := Some (PyStr "2020-Jan-01 00:00");
                ca_kw_distance := Some f_0_15; ca_kw_velocity := Some f_5_2;
                ca_kw_neo := None |})) (PyStr "2020-01-01")); reflexivity.
  - apply (proj1 (proj2 (CloseApproach_init_time parse_any
             {| ca_kw_designation := Some "433"; ca_kw_time := Some (PyInt 7);
                ca_kw_distance := Some f_0_15; ca_kw_velocity := Some f_5_2;
                ca_kw_neo := None |}))); reflexivity.
Defined.

(** X26. A database built from an empty NEO collection links nothing and
    finds nothing: the store is as before at every reference, both
    lookups return [None] for every key, and a query still yields every
    approach of the input. *)
Theorem database_without_neos h approaches_in :
  let h' := fst (NEODatabase_init h [] approaches_in) in
  let db := snd (NEODatabase_init h [] approaches_in) in
  (forall a, ca_at h' a = ca_at h a)
  /\ (forall n, neo_at h' n = neo_at h n)
  /\ (forall d, get_neo_by_designation db d = None)
  /\ (forall k, get_neo_by_name db k = None)
  /\ (forall filters, fst (to_list (query db filters)) = approaches_in).
Proof.
  intros h' db. subst h' db. cbn [NEODatabase_init fst snd].
  assert (Hid : forall l h0,
            foldl (link_approach (designation_index h [])) h0 l = h0).
  { induction l as [|a l IH]; intros h0; simpl; [done|]. by rewrite IH. }
  rewrite Hid.
  repeat split; try done. intros filters. apply to_list_fresh.
Qed.
